(** * MMIX memory and register model (mmix.js)

    A shallow embedding of the core of [mmix.js]: the [Memory64] byte
    store with its width-aware big-endian [read]/[write], the formatting
    helpers [formatHex]/[formatSigned], and the [MMIX] register file.

    Conventions of the embedding:
    - a JavaScript BigInt is a [Z]; [&], [|], [~], [<<], [>>] on BigInts
      are [Z.land], [Z.lor], [Z.lnot], [Z.shiftl], [Z.shiftr] (both sides
      use the infinite two's-complement reading of negative numbers);
    - the [Map] of [Memory64] is a [gmap Z Z];
    - a [BigUint64Array] is a [list Z] of fixed length whose elements are
      stored modulo 2^64;
    - a method of [MMIX] returns an [Exn]: a value, or a thrown [Error]. *)

From Stdlib Require Import ZArith Lia String Ascii List Bool.
From stdpp Require Import base gmap list sorting.
From coqutil Require Import Z.bitblast.

Local Open Scope Z_scope.

(** ** Width constants *)

(** [Width] is a number-or-string union in the source: the four numeric
    widths and the sentinel ['high_tetra']. *)
Inductive Width :=
| Num (n : Z)
| HIGH_TETRA.

Definition BYTE : Width := Num 1.
Definition WYDE : Width := Num 2.
Definition TETRA : Width := Num 4.
Definition OCTA : Width := Num 8.

Definition is_HIGH_TETRA (w : Width) : bool :=
  match w with HIGH_TETRA => true | Num _ => false end.

(** The numeric content of a width once the sentinel has been replaced
    by [TETRA], as every use site of the source does first. *)
Definition width_bytes (w : Width) : Z :=
  match w with Num n => n | HIGH_TETRA => 4 end.

(** ** Memory64 *)

Module Memory64.

Record t := Build { store : gmap Z Z }.

Definition new : t := Build ∅.

(** [alignAddress(addr, width)]: [addr & ~BigInt(width - 1)], with
    [HIGH_TETRA] replaced by [TETRA]. *)
Definition alignAddress (addr : Z) (width : Width) : Z :=
  let width := if is_HIGH_TETRA width then TETRA else width in
  let mask := width_bytes width - 1 in
  Z.land addr (Z.lnot mask).

(** [readByte(addr)]: [store.get(addr) ?? 0n]. *)
Definition readByte (m : t) (addr : Z) : Z :=
  default 0 (store m !! addr).

(** [writeByte(addr, value)]: [store.set(addr, BigInt(value) & 0xFFn)]. *)
Definition writeByte (m : t) (addr value : Z) : t :=
  Build (<[addr := Z.land value 255]> (store m)).

Record ReadOptions := { signed : bool; highTetra : bool }.
Definition default_read : ReadOptions :=
  {| signed := false; highTetra := false |}.

(** [{ signed: true }]. *)
Definition signed_read : ReadOptions :=
  {| signed := true; highTetra := false |}.

Record WriteOptions := { w_highTetra : bool }.
Definition default_write : WriteOptions := {| w_highTetra := false |}.

(** The body of [for (let i = 0; i < actualWidth; i++)] in [read]:
    [n] iterations remain, [i] is the loop variable. *)
Fixpoint read_loop (m : t) (alignedAddr : Z) (n : nat) (i result : Z) : Z :=
  match n with
  | O => result
  | S n' =>
      let byte := readByte m (alignedAddr + i) in
      read_loop m alignedAddr n' (i + 1) (Z.lor (Z.shiftl result 8) byte)
  end.

(** [signExtend(value, width)]. The condition [value & signBit] is a
    BigInt, truthy when non-zero. *)
Definition signExtend (value width : Z) : Z :=
  let bits := width * 8 in
  let signBit := Z.shiftl 1 (bits - 1) in
  if negb (Z.land value signBit =? 0) then
    let mask := Z.shiftl 1 bits - 1 in
    Z.lor value (Z.lnot mask)
  else value.

(** [read(addr, width, options)]. *)
Definition read (m : t) (addr : Z) (width : Width) (o : ReadOptions) : Z :=
  let high := is_HIGH_TETRA width || highTetra o in
  let actualWidth := if high then 4 else width_bytes width in
  let alignedAddr := alignAddress addr (Num actualWidth) in
  let result := read_loop m alignedAddr (Z.to_nat actualWidth) 0 0 in
  if high then Z.shiftl result 32
  else if signed o then signExtend result actualWidth
  else result.

(** The body of [for (let i = actualWidth - 1; i >= 0; i--)] in
    [write]: the argument [S i] leaves the iterations [i, i-1, ..., 0]. *)
Fixpoint write_loop (m : t) (alignedAddr : Z) (n : nat) (actualValue : Z) : t :=
  match n with
  | O => m
  | S i =>
      let byte := Z.land actualValue 255 in
      let m' := writeByte m (alignedAddr + Z.of_nat i) byte in
      write_loop m' alignedAddr i (Z.shiftr actualValue 8)
  end.

(** [write(addr, width, value, options)]. *)
Definition write (m : t) (addr : Z) (width : Width) (value : Z)
    (o : WriteOptions) : t :=
  let high := is_HIGH_TETRA width || w_highTetra o in
  let actualWidth := if high then 4 else width_bytes width in
  let actualValue := if high then Z.shiftr value 32 else value in
  let alignedAddr := alignAddress addr (Num actualWidth) in
  let mask := Z.shiftl 1 (actualWidth * 8) - 1 in
  let actualValue := Z.land actualValue mask in
  write_loop m alignedAddr (Z.to_nat actualWidth) actualValue.

(** [clear()]. *)
Definition clear (m : t) : t := Build ∅.

(** Every byte a store can hold after [writeByte]: a value in 0..255. *)
Definition bytes_ok (m : t) : Prop :=
  forall a, 0 <= readByte m a < 256.

(** [getUsedAddresses()]: the keys of the map, sorted in ascending order.
    The keys of a map are distinct, so the sorted sequence depends neither
    on the iteration order of the map nor on the sorting algorithm. *)
Definition getUsedAddresses (m : t) : list Z :=
  merge_sort Z.le (map_to_list (store m)).*1.

End Memory64.

(** ** Formatting helpers *)

(** The digit alphabet of [BigInt.prototype.toString(radix)]. *)
Definition digit_char (d : Z) : ascii :=
  match String.get (Z.to_nat d) "0123456789abcdefghijklmnopqrstuvwxyz" with
  | Some c => c
  | None => "?"%char
  end.

(** Digits of a non-negative [n], most significant first; [fuel] bounds
    the number of digits. *)
Fixpoint digits_of (fuel : nat) (radix n : Z) (acc : string) : string :=
  match fuel with
  | O => acc
  | S fuel' =>
      let acc' := String (digit_char (n mod radix)) acc in
      if n / radix =? 0 then acc' else digits_of fuel' radix (n / radix) acc'
  end.

(** [value.toString(radix)] on a BigInt, for a radix in 2..36. Every
    division by the radix removes at least one bit, so [log2 |value| + 1]
    steps are enough. *)
Definition BigInt_toString (radix value : Z) : string :=
  let a := Z.abs value in
  let ds := digits_of (S (Z.to_nat (Z.log2 a))) radix a EmptyString in
  if value <? 0 then String "-" ds else ds.

Definition upper_char (c : ascii) : ascii :=
  let n := nat_of_ascii c in
  if ((97 <=? n) && (n <=? 122))%nat then ascii_of_nat (n - 32) else c.

(** [s.toUpperCase()] on the characters a digit string can hold. *)
Fixpoint toUpperCase (s : string) : string :=
  match s with
  | EmptyString => EmptyString
  | String c s' => String (upper_char c) (toUpperCase s')
  end.

Fixpoint repeat_char (c : ascii) (n : nat) : string :=
  match n with
  | O => EmptyString
  | S n' => String c (repeat_char c n')
  end.

(** [s.padStart(targetLength, c)] for a one-character filler. *)
Definition padStart (s : string) (targetLength : Z) (c : ascii) : string :=
  let len := Z.of_nat (String.length s) in
  if targetLength <=? len then s
  else (repeat_char c (Z.to_nat (targetLength - len)) ++ s)%string.

(** The decimal rendering of an index, as in the template [`$${i}`]. *)
Definition decimal (k : Z) : string := BigInt_toString 10 k.

(** [formatHex(value, digits = 16)]. *)
Definition formatHex (value digits : Z) : string :=
  let value := if value <? 0 then Z.shiftl 1 64 + value else value in
  padStart (toUpperCase (BigInt_toString 16 value)) digits "0".

(** [formatSigned(value)]. *)
Definition formatSigned (value : Z) : string :=
  if negb (Z.land value (Z.shiftl 1 63) =? 0)
  then BigInt_toString 10 (value - Z.shiftl 1 64)
  else BigInt_toString 10 value.

(** The number that a string of upper-case hexadecimal digits denotes;
    [None] when a character is no such digit. It is used to state what
    [formatHex] returns. *)
Definition hex_digit_value (c : ascii) : option Z :=
  let n := nat_of_ascii c in
  if ((48 <=? n) && (n <=? 57))%nat then Some (Z.of_nat n - 48)
  else if ((65 <=? n) && (n <=? 70))%nat then Some (Z.of_nat n - 55)
  else None.

Fixpoint hex_value (s : string) : option Z :=
  match s with
  | EmptyString => Some 0
  | String c s' =>
      match hex_digit_value c, hex_value s' with
      | Some d, Some v => Some (d * 16 ^ Z.of_nat (String.length s') + v)
      | _, _ => None
      end
  end.

(** [Memory64.readOctaHex(addr)]. *)
Definition readOctaHex (m : Memory64.t) (addr : Z) : string :=
  formatHex (Memory64.read m addr OCTA Memory64.default_read) 16.

(** ** JavaScript values and exceptions *)

(** What a register accessor can return: [undefined] or a BigInt. *)
Inductive jsval :=
| JUndefined
| JBigInt (z : Z).

(** A Number used as a register index: [Int z] is an integer-valued
    Number, [NaN] is what [parseInt] gives on a string without digits.
    Numbers with a fractional part do not occur at the call sites
    modelled here. *)
Inductive Number :=
| Int (z : Z)
| NaN.

(** A value used as the property key of a typed-array load: a Number, or
    ([NonNumeric]) the function or object that [SpecialReg[name]] gives
    for an inherited property name, whose key is a string that is not a
    canonical numeric string. Only loads receive such a key, from
    [getRegByName]; the stores of the register file are modelled on
    Numbers, the indices that the spec and every caller in the
    repository pass. A store through a Number never creates an ordinary
    property on a typed array, so a load at a [NonNumeric] key finds
    none. *)
Inductive Index :=
| Numeric (n : Number)
| NonNumeric.

Coercion Numeric : Number >-> Index.

Record Error := MkError { message : string }.

Inductive Exn (A : Type) :=
| Return (a : A)
| Throw (e : Error).
Arguments Return {A} a.
Arguments Throw {A} e.

Definition raises {A} (c : Exn A) : Prop := exists e, c = Throw e.

Definition bind {A B} (c : Exn A) (k : A -> Exn B) : Exn B :=
  match c with
  | Return a => k a
  | Throw e => Throw e
  end.

(** The TypeError of [undefined.toString]; the text is the one of Node. *)
Definition TypeError_undefined : Error :=
  MkError "Cannot read properties of undefined (reading 'toString')".

(** [formatHex(value, digits)] on what a typed array load gives. On
    [undefined] the comparison [value < 0n] is false and the call of
    [value.toString] throws. *)
Definition formatHex_value (v : jsval) (digits : Z) : Exn string :=
  match v with
  | JBigInt z => Return (formatHex z digits)
  | JUndefined => Throw TypeError_undefined
  end.

(** ** BigUint64Array *)

Module BigUint64Array.

(** The array is a [list Z]; its length never changes. *)

(** [new BigUint64Array(n)]: [n] elements, all zero. *)
Definition new (n : nat) : list Z := replicate n 0.

(** [a[k]]: the element when [k] is a valid integer index, [undefined]
    otherwise: out of range, [NaN], or a key that is no element (an
    array written through Numbers only has no ordinary property). *)
Definition get (a : list Z) (k : Index) : jsval :=
  match k with
  | Numeric (Int z) =>
      if 0 <=? z then
        match a !! Z.to_nat z with
        | Some v => JBigInt v
        | None => JUndefined
        end
      else JUndefined
  | Numeric NaN | NonNumeric => JUndefined
  end.

(** [a[k] = v] for a Number [k]: stores [v] modulo 2^64 when [k] is a
    valid integer index; otherwise (out of range, [NaN]) the key is a
    canonical numeric string and the store does nothing at all. *)
Definition set (a : list Z) (k : Number) (v : Z) : list Z :=
  match k with
  | Int z => if 0 <=? z then <[Z.to_nat z := v mod 2 ^ 64]> a else a
  | NaN => a
  end.

(** [a.fill(v)]. *)
Definition fill (a : list Z) (v : Z) : list Z :=
  replicate (length a) (v mod 2 ^ 64).

End BigUint64Array.

(** ** Strings and the special-register table *)

Local Open Scope string_scope.

(** A JavaScript string is a [string] whose characters are read as the
    code units 0..255. *)

(** [name.startsWith('$')]. *)
Definition startsWith_dollar (name : string) : bool :=
  match name with
  | String c _ => Ascii.eqb c "$"
  | EmptyString => false
  end.

(** [name.slice(1)]. *)
Definition slice1 (name : string) : string :=
  match name with
  | String _ rest => rest
  | EmptyString => EmptyString
  end.

(** White space and line terminators among the code units 0..255: TAB,
    LF, VT, FF, CR, SP and NBSP. *)
Definition isWhiteSpace (c : ascii) : bool :=
  let n := nat_of_ascii c in
  ((9 <=? n) && (n <=? 13) || (n =? 32) || (n =? 160))%nat.

Fixpoint trimStart (s : string) : string :=
  match s with
  | EmptyString => EmptyString
  | String c s' => if isWhiteSpace c then trimStart s' else s
  end.

Definition digit_val (c : ascii) : option Z :=
  let n := nat_of_ascii c in
  if ((48 <=? n) && (n <=? 57))%nat then Some (Z.of_nat n - 48) else None.

(** The value of the longest prefix of decimal digits, [acc] holding the
    value of the digits already read ([None] when there is none yet). *)
Fixpoint parse_digits (s : string) (acc : option Z) : option Z :=
  match s with
  | EmptyString => acc
  | String c s' =>
      match digit_val c with
      | Some d => parse_digits s' (Some (10 * default 0%Z acc + d))
      | None => acc
      end
  end.

(** [parseInt(s, 10)]: leading white space is skipped, one sign is
    accepted, the longest prefix of digits is read and what follows is
    ignored; without a digit the result is [NaN]. The result is the exact
    integer: the rounding to a double that happens above 2^53 is left
    out, it maps no integer outside 0..255 into that range. *)
Definition parseInt (s : string) : Number :=
  let s := trimStart s in
  let '(sign, s) :=
    match s with
    | String "-" rest => (-1, rest)
    | String "+" rest => (1, rest)
    | _ => (1, s)
    end in
  match parse_digits s None with
  | Some n => Int (sign * n)
  | None => NaN
  end.

(** Whether [parseInt] reads back the decimal rendering of [k]. *)
Definition reads_back (k : Z) : bool :=
  match parseInt (decimal k) with
  | Int z => (z =? k)%Z
  | NaN => false
  end.

(** The own properties of the object literal [SpecialReg], in source
    order. *)
Definition SpecialReg : list (string * Z) :=
  [ ("rA", 21); ("rB", 0); ("rC", 8); ("rD", 1); ("rE", 2); ("rF", 22);
    ("rG", 19); ("rH", 3); ("rI", 12); ("rJ", 4); ("rK", 15); ("rL", 20);
    ("rM", 5); ("rN", 9); ("rO", 10); ("rP", 23); ("rQ", 16); ("rR", 6);
    ("rS", 11); ("rT", 13); ("rU", 17); ("rV", 18); ("rW", 24); ("rX", 25);
    ("rY", 26); ("rZ", 27); ("rBB", 7); ("rTT", 14); ("rWW", 28);
    ("rXX", 29); ("rYY", 30); ("rZZ", 31) ]%Z.

(** Whether some mnemonic of the table denotes the slot [s]. *)
Definition slot_named (s : Z) : bool :=
  existsb (fun p => (snd p =? s)%Z) SpecialReg.

(** [SpecialReg] is an ordinary object: the [in] operator also finds the
    properties it inherits from [Object.prototype], whose values are
    functions (an object for [__proto__]). *)
Definition Object_prototype : list string :=
  [ "constructor"; "hasOwnProperty"; "isPrototypeOf";
    "propertyIsEnumerable"; "toLocaleString"; "toString"; "valueOf";
    "__proto__"; "__defineGetter__"; "__defineSetter__";
    "__lookupGetter__"; "__lookupSetter__" ].

Fixpoint own_property (table : list (string * Z)) (name : string) : option Z :=
  match table with
  | [] => None
  | (k, v) :: rest => if String.eqb k name then Some v else own_property rest name
  end.

(** [name in SpecialReg]. *)
Definition in_SpecialReg (name : string) : bool :=
  match own_property SpecialReg name with
  | Some _ => true
  | None => existsb (String.eqb name) Object_prototype
  end.

(** [SpecialReg[name]] as a property key: the slot number of a mnemonic,
    a non-numeric key for an inherited function or for [undefined]. *)
Definition SpecialReg_get (name : string) : Index :=
  match own_property SpecialReg name with
  | Some slot => Int slot
  | None => NonNumeric
  end.

Local Close Scope string_scope.

(** ** MMIX machine state *)

Module MMIX.

Record t := Build {
  mem : Memory64.t;
  reg : list Z;
  sreg : list Z;
  pc : Z
}.

(** [constructor()]. *)
Definition new : t :=
  {| mem := Memory64.new;
     reg := BigUint64Array.new 256;
     sreg := BigUint64Array.new 32;
     pc := 0 |}.

(** [getReg(index)]. *)
Definition getReg (m : t) (index : Index) : Exn jsval :=
  Return (BigUint64Array.get (reg m) index).

(** [setReg(index, value)]. *)
Definition setReg (m : t) (index : Number) (value : Z) : Exn t :=
  let v := Z.land value (Z.shiftl 1 64 - 1) in
  Return {| mem := mem m; reg := BigUint64Array.set (reg m) index v;
            sreg := sreg m; pc := pc m |}.

(** [getSpecialReg(index)]. *)
Definition getSpecialReg (m : t) (index : Index) : Exn jsval :=
  Return (BigUint64Array.get (sreg m) index).

(** [setSpecialReg(index, value)]. *)
Definition setSpecialReg (m : t) (index : Number) (value : Z) : Exn t :=
  let v := Z.land value (Z.shiftl 1 64 - 1) in
  Return {| mem := mem m; reg := reg m;
            sreg := BigUint64Array.set (sreg m) index v; pc := pc m |}.

Definition UnknownRegister (name : string) : Error :=
  MkError ("Unknown register: " ++ name)%string.

(** [getRegByName(name)]. *)
Definition getRegByName (m : t) (name : string) : Exn jsval :=
  if startsWith_dollar name then
    let index := parseInt (slice1 name) in
    getReg m index
  else if in_SpecialReg name then
    getSpecialReg m (SpecialReg_get name)
  else Throw (UnknownRegister name).

(** [getRegHex(index)]. *)
Definition getRegHex (m : t) (index : Index) : Exn string :=
  formatHex_value (BigUint64Array.get (reg m) index) 16.

(** [getSpecialRegHex(index)]. *)
Definition getSpecialRegHex (m : t) (index : Index) : Exn string :=
  formatHex_value (BigUint64Array.get (sreg m) index) 16.

(** An element of [registers] or [specialRegisters] in the result of
    [getStateSummary]: the properties [index], [name], [value] and
    [decimal]. *)
Record RegEntry := {
  r_index : Z;
  r_name : string;
  r_value : string;
  r_decimal : string
}.

(** The result of [getStateSummary]. *)
Record Summary := {
  s_pc : string;
  registers : list RegEntry;
  specialRegisters : list RegEntry
}.

(** [Array.from(this.reg).map((v, i) => ...)]. *)
Definition register_entries (m : t) : list RegEntry :=
  imap (fun i v =>
          {| r_index := Z.of_nat i;
             r_name := String "$" (decimal (Z.of_nat i));
             r_value := formatHex v 16;
             r_decimal := formatSigned v |}) (reg m).

(** [Object.entries(SpecialReg).map(([name, index]) => ...)]: the
    entries come in source order; [formatHex] is evaluated first and
    throws when the slot is no element of [sreg]. *)
Fixpoint special_entries (m : t) (table : list (string * Z))
    : Exn (list RegEntry) :=
  match table with
  | [] => Return []
  | (name, index) :: rest =>
      match BigUint64Array.get (sreg m) (Int index) with
      | JBigInt v =>
          bind (special_entries m rest) (fun es =>
            Return ({| r_index := index; r_name := name;
                       r_value := formatHex v 16;
                       r_decimal := formatSigned v |} :: es))
      | JUndefined => Throw TypeError_undefined
      end
  end.

(** [getStateSummary()]. *)
Definition getStateSummary (m : t) : Exn Summary :=
  bind (special_entries m SpecialReg) (fun sp =>
    Return {| s_pc := formatHex (pc m) 16;
              registers := register_entries m;
              specialRegisters := sp |}).

(** [reset()]. *)
Definition reset (m : t) : t :=
  {| mem := Memory64.clear (mem m);
     reg := BigUint64Array.fill (reg m) 0;
     sreg := BigUint64Array.fill (sreg m) 0;
     pc := 0 |}.

(** The mutations a caller can perform on a machine: register writes (at
    a Number index), memory writes and assignments to the [pc] field. *)
Inductive Op :=
| OpSetReg (index : Number) (value : Z)
| OpSetSpecialReg (index : Number) (value : Z)
| OpWriteByte (addr value : Z)
| OpWrite (addr : Z) (width : Width) (value : Z) (o : Memory64.WriteOptions)
| OpSetPc (value : Z).

Definition set_mem (m : t) (mem' : Memory64.t) : t :=
  {| mem := mem'; reg := reg m; sreg := sreg m; pc := pc m |}.

Definition step (m : t) (op : Op) : t :=
  match op with
  | OpSetReg i v =>
      match setReg m i v with Return m' => m' | Throw _ => m end
  | OpSetSpecialReg i v =>
      match setSpecialReg m i v with Return m' => m' | Throw _ => m end
  | OpWriteByte a v => set_mem m (Memory64.writeByte (mem m) a v)
  | OpWrite a w v o => set_mem m (Memory64.write (mem m) a w v o)
  | OpSetPc v => {| mem := mem m; reg := reg m; sreg := sreg m; pc := v |}
  end.

(** The state after a sequence of mutations of a fresh machine. *)
Definition run (ops : list Op) : t := fold_left step ops new.

(** The register arrays have their construction-time lengths. *)
Definition sized (m : t) : Prop :=
  length (reg m) = 256%nat /\ length (sreg m) = 32%nat.

(** Every register holds an unsigned 64-bit value. *)
Definition regs_ok (m : t) : Prop :=
  Forall (fun v => 0 <= v < 2 ^ 64) (reg m)
  /\ Forall (fun v => 0 <= v < 2 ^ 64) (sreg m).

End MMIX.

(** * Facts about the memory store *)

Module Memory64Facts.
Import Memory64.

Lemma readByte_new a : readByte new a = 0.
Proof. unfold readByte. simpl. rewrite lookup_empty. reflexivity. Qed.

Lemma readByte_clear m a : readByte (clear m) a = 0.
Proof. apply readByte_new. Qed.

Lemma readByte_writeByte m a v x :
  readByte (writeByte m a v) x
  = if decide (a = x) then Z.land v 255 else readByte m x.
Proof.
  unfold readByte, writeByte; simpl.
  rewrite lookup_insert. destruct (decide (a = x)); reflexivity.
Qed.

(** The loop of [write] stores byte [n - 1 - k] of the value (counted
    from the least significant one) at offset [k], and nothing else. *)
Lemma readByte_write_loop n : forall m a v x,
  readByte (write_loop m a n v) x =
  if decide (a <= x < a + Z.of_nat n)
  then Z.land (Z.shiftr v (8 * (Z.of_nat n - 1 - (x - a)))) 255
  else readByte m x.
Proof.
  induction n as [|i IH]; intros m a v x.
  - simpl. destruct (decide _); [lia | reflexivity].
  - cbn [write_loop]. rewrite IH, readByte_writeByte.
    destruct (decide (a <= x < a + Z.of_nat i)) as [Hin|Hout].
    + rewrite decide_True by lia.
      rewrite Z.shiftr_shiftr by lia. do 2 f_equal. lia.
    + destruct (decide (a + Z.of_nat i = x)) as [Heq|Hne].
      * rewrite decide_True by lia.
        replace (8 * (Z.of_nat (S i) - 1 - (x - a))) with 0 by lia.
        rewrite Z.shiftr_0_r, <- Z.land_assoc. reflexivity.
      * rewrite decide_False by lia. reflexivity.
Qed.

Lemma readByte_write m A W V o a :
  let E := if is_HIGH_TETRA W || w_highTetra o then 4 else width_bytes W in
  let base := alignAddress A (Num E) in
  let v := if is_HIGH_TETRA W || w_highTetra o then Z.shiftr V 32 else V in
  readByte (write m A W V o) a =
  if decide (base <= a < base + Z.of_nat (Z.to_nat E))
  then Z.land (Z.shiftr (Z.land v (Z.ones (E * 8)))
                 (8 * (Z.of_nat (Z.to_nat E) - 1 - (a - base)))) 255
  else readByte m a.
Proof.
  intros E base v. unfold write. fold E. fold base. fold v.
  rewrite readByte_write_loop. reflexivity.
Qed.

Lemma byte_join v k : 0 <= k ->
  Z.lor (Z.shiftl (Z.land (Z.shiftr v k) 255) k) (Z.land v (Z.ones k))
  = Z.land v (Z.ones (k + 8)).
Proof. intros Hk. change 255 with (Z.ones 8). Z.bitblast. Qed.

(** The loop of [read] rebuilds a value from its bytes, most
    significant first. *)
Lemma read_loop_combine n : forall m a i r v,
  (forall j, 0 <= j < Z.of_nat n ->
     readByte m (a + (i + j))
     = Z.land (Z.shiftr v (8 * (Z.of_nat n - 1 - j))) 255) ->
  read_loop m a n i r =
  Z.lor (Z.shiftl r (8 * Z.of_nat n)) (Z.land v (Z.ones (8 * Z.of_nat n))).
Proof.
  induction n as [|n IH]; intros m a i r v Hb.
  - simpl. rewrite Z.shiftl_0_r, Z.land_0_r, Z.lor_0_r. reflexivity.
  - cbn [read_loop].
    rewrite (IH m a (i + 1) _ v).
    + specialize (Hb 0 ltac:(lia)). rewrite Z.add_0_r in Hb. rewrite Hb.
      replace (8 * (Z.of_nat (S n) - 1 - 0)) with (8 * Z.of_nat n) by lia.
      replace (8 * Z.of_nat (S n)) with (8 * Z.of_nat n + 8) by lia.
      rewrite <- (byte_join v (8 * Z.of_nat n)) by lia.
      rewrite Z.shiftl_lor, Z.shiftl_shiftl by lia.
      rewrite <- Z.lor_assoc. do 2 f_equal. lia.
    + intros j Hj. specialize (Hb (j + 1) ltac:(lia)).
      replace (a + (i + 1 + j)) with (a + (i + (j + 1))) by lia.
      rewrite Hb. do 3 f_equal. lia.
Qed.

Lemma alignAddress_pow2 A k : 0 <= k ->
  alignAddress A (Num (2 ^ k)) = 2 ^ k * (A / 2 ^ k).
Proof.
  intros Hk. unfold alignAddress. simpl.
  replace (2 ^ k - 1) with (Z.ones k) by (rewrite Z.ones_equiv; lia).
  rewrite <- Z.ldiff_land, Z.ldiff_ones_r by lia.
  rewrite Z.shiftr_div_pow2, Z.shiftl_mul_pow2 by lia. lia.
Qed.

Lemma alignAddress_OCTA_aligned A : A mod 8 = 0 -> alignAddress A OCTA = A.
Proof.
  intros H. change OCTA with (Num (2 ^ 3)). rewrite alignAddress_pow2 by lia.
  change (2 ^ 3) with 8. pose proof (Z.div_mod A 8 ltac:(lia)). lia.
Qed.

Lemma named_width_cases W :
  In W [BYTE; WYDE; TETRA; OCTA] -> exists n, W = Num n /\ 0 < n <= 8.
Proof.
  simpl. unfold BYTE, WYDE, TETRA, OCTA.
  intuition (subst; eexists; split; [reflexivity | lia]).
Qed.

(** *** Sign bit and sign extension *)

Lemma land_bit u n : 0 <= n ->
  (Z.land u (Z.shiftl 1 n) =? 0) = negb (Z.testbit u n).
Proof.
  intros Hn. rewrite Z.shiftl_1_l.
  destruct (Z.testbit u n) eqn:Hb; simpl.
  - apply Z.eqb_neq. intros H0.
    assert (Hc : Z.testbit (Z.land u (2 ^ n)) n = true)
      by (rewrite Z.land_spec, Hb, Z.pow2_bits_true by lia; reflexivity).
    rewrite H0, Z.bits_0 in Hc. discriminate.
  - apply Z.eqb_eq. apply Z.bits_inj'. intros i Hi.
    rewrite Z.land_spec, Z.bits_0, Z.pow2_bits_eqb by lia.
    destruct (Z.eqb_spec n i) as [->|]; [rewrite Hb|]; auto using andb_false_r.
Qed.

Lemma lor_disjoint a b : Z.land a b = 0 -> Z.lor a b = a + b.
Proof. intros H. pose proof (Z.add_lor_land a b). lia. Qed.

Lemma lor_shiftl_byte r b : 0 <= b < 256 ->
  Z.lor (Z.shiftl r 8) b = r * 256 + b.
Proof.
  intros Hb. rewrite lor_disjoint.
  - rewrite Z.shiftl_mul_pow2 by lia. reflexivity.
  - replace b with (Z.land b (Z.ones 8))
      by (rewrite Z.land_ones by lia; apply Z.mod_small; exact Hb).
    Z.bitblast. rewrite (Z.testbit_neg_r r l) by lia. reflexivity.
Qed.

Lemma lor_lnot_ones u n : 0 <= n -> 0 <= u < 2 ^ n ->
  Z.lor u (Z.lnot (Z.shiftl 1 n - 1)) = u - 2 ^ n.
Proof.
  intros Hn Hu. rewrite Z.shiftl_1_l, Z.lnot_pred, lor_disjoint; [lia|].
  replace (- 2 ^ n) with (Z.lnot (Z.ones n))
    by (rewrite Z.ones_equiv, Z.lnot_eq_pred_opp; lia).
  rewrite <- Z.ldiff_land, Z.ldiff_ones_r, Z.shiftr_div_pow2 by lia.
  rewrite Z.div_small by lia. apply Z.shiftl_0_l.
Qed.

Lemma signExtend_in_range u w : 0 < w -> 0 <= u < 2 ^ (w * 8) ->
  signExtend u w = if Z.testbit u (w * 8 - 1) then u - 2 ^ (w * 8) else u.
Proof.
  intros Hw Hu. unfold signExtend.
  rewrite land_bit by lia. rewrite negb_involutive.
  destruct (Z.testbit u (w * 8 - 1)); [|reflexivity].
  apply lor_lnot_ones; [lia | exact Hu].
Qed.

(** *** The stored bytes stay in 0..255 *)

Lemma land_255_range v : 0 <= Z.land v 255 < 256.
Proof.
  change 255 with (Z.ones 8). rewrite Z.land_ones by lia.
  apply Z.mod_pos_bound. lia.
Qed.

Lemma bytes_ok_new : bytes_ok new.
Proof. intros a. rewrite readByte_new. lia. Qed.

Lemma bytes_ok_writeByte m a v : bytes_ok m -> bytes_ok (writeByte m a v).
Proof.
  intros Hm x. rewrite readByte_writeByte.
  destruct (decide (a = x)); [apply land_255_range | apply Hm].
Qed.

Lemma bytes_ok_write m A W V o : bytes_ok m -> bytes_ok (write m A W V o).
Proof.
  intros Hm x. rewrite readByte_write.
  destruct (decide _); [apply land_255_range | apply Hm].
Qed.

Lemma read_loop_bound n : forall m a i r k,
  bytes_ok m -> 0 <= k -> 0 <= r < 2 ^ k ->
  0 <= read_loop m a n i r < 2 ^ (k + 8 * Z.of_nat n).
Proof.
  induction n as [|n IH]; intros m a i r k Hm Hk Hr.
  - simpl. rewrite Z.add_0_r. exact Hr.
  - cbn [read_loop]. rewrite lor_shiftl_byte by apply Hm.
    replace (k + 8 * Z.of_nat (S n)) with ((k + 8) + 8 * Z.of_nat n) by lia.
    apply IH; [exact Hm | lia |].
    specialize (Hm (a + i)). rewrite Z.pow_add_r by lia.
    change (2 ^ 8) with 256. nia.
Qed.


(** *** Reads depend only on the bytes of their window *)

Lemma read_loop_ext n : forall m m' a i r,
  (forall j, 0 <= j < Z.of_nat n -> readByte m (a + (i + j)) = readByte m' (a + (i + j))) ->
  read_loop m a n i r = read_loop m' a n i r.
Proof.
  induction n as [|n IH]; intros m m' a i r H; [reflexivity|].
  cbn [read_loop].
  pose proof (H 0 ltac:(lia)) as H0. rewrite Z.add_0_r in H0. rewrite H0.
  apply IH. intros j Hj.
  replace (a + (i + 1 + j)) with (a + (i + (j + 1))) by lia. apply H. lia.
Qed.

Lemma read_ext m m' A W o :
  (forall a,
     alignAddress A (Num (if is_HIGH_TETRA W || highTetra o then 4 else width_bytes W)) <= a
     < alignAddress A (Num (if is_HIGH_TETRA W || highTetra o then 4 else width_bytes W))
       + (if is_HIGH_TETRA W || highTetra o then 4 else width_bytes W) ->
     readByte m a = readByte m' a) ->
  read m A W o = read m' A W o.
Proof.
  intros H. unfold read.
  rewrite (read_loop_ext _ m m'); [reflexivity|].
  intros j Hj. apply H. lia.
Qed.

Lemma read_loop_zero n : forall m a i,
  (forall x, readByte m x = 0) -> read_loop m a n i 0 = 0.
Proof.
  induction n as [|n IH]; intros m a i H; [reflexivity|].
  cbn [read_loop]. rewrite H. simpl. apply IH, H.
Qed.

(** The round trip of a numeric width, for every non-negative width. *)
Lemma read_write_same m A V n :
  0 <= n ->
  read (write m A (Num n) V default_write) A (Num n) default_read
  = Z.land V (Z.ones (n * 8)).
Proof.
  intros Hn. unfold read.
  cbn [is_HIGH_TETRA orb highTetra default_read signed width_bytes].
  set (v := Z.land V (Z.ones (n * 8))).
  rewrite (read_loop_combine _ _ _ _ _ v).
  - rewrite Z.shiftl_0_l, Z.lor_0_l. subst v.
    rewrite Z2Nat.id by lia. rewrite <- Z.land_assoc.
    replace (8 * n) with (n * 8) by lia. rewrite Z.land_diag. reflexivity.
  - intros j Hj. rewrite (readByte_write m A (Num n) V default_write).
    cbn [is_HIGH_TETRA orb w_highTetra default_write width_bytes].
    fold v. rewrite decide_True by lia. do 3 f_equal. lia.
Qed.

Lemma alignAddress_multiple A n k :
  0 <= k -> n = 2 ^ k -> A mod n = 0 -> alignAddress A (Num n) = A.
Proof.
  intros Hk -> HA. rewrite alignAddress_pow2 by exact Hk.
  assert (Hp : 0 < 2 ^ k) by (apply Z.pow_pos_nonneg; lia).
  pose proof (Z.div_mod A (2 ^ k) ltac:(lia)). lia.
Qed.

Lemma testbit_top u n :
  0 < n -> 0 <= u < 2 ^ n -> Z.testbit u (n - 1) = (2 ^ (n - 1) <=? u).
Proof.
  intros Hn Hu.
  assert (H2 : 2 ^ n = 2 * 2 ^ (n - 1))
    by (rewrite <- Z.pow_succ_r by lia; f_equal; lia).
  assert (Hp : 0 < 2 ^ (n - 1)) by (apply Z.pow_pos_nonneg; lia).
  rewrite Z.testbit_eqb by lia.
  destruct (Z.leb_spec (2 ^ (n - 1)) u) as [Hge|Hlt].
  - replace (u / 2 ^ (n - 1)) with 1; [reflexivity|].
    apply Z.div_unique with (r := u - 2 ^ (n - 1)); lia.
  - rewrite Z.div_small by lia. reflexivity.
Qed.

Lemma read_unsigned_range m A n :
  bytes_ok m -> 0 < n ->
  0 <= read m A (Num n) default_read < 2 ^ (n * 8).
Proof.
  intros Hm Hn. unfold read.
  cbn [is_HIGH_TETRA orb highTetra signed default_read width_bytes].
  pose proof (read_loop_bound (Z.to_nat n) m (alignAddress A (Num n)) 0 0 0
                Hm ltac:(lia) ltac:(simpl; lia)) as Hb.
  rewrite Z2Nat.id in Hb by lia.
  replace (0 + 8 * n) with (n * 8) in Hb by lia. exact Hb.
Qed.

(** A signed read of [n] bytes lies in the signed range of [n] bytes. *)
Lemma read_signed_range m A n :
  bytes_ok m -> 0 < n ->
  - 2 ^ (n * 8 - 1) <= read m A (Num n) signed_read < 2 ^ (n * 8 - 1)
  /\ (read m A (Num n) signed_read = read m A (Num n) default_read
      \/ read m A (Num n) signed_read
         = read m A (Num n) default_read - 2 ^ (n * 8)).
Proof.
  intros Hm Hn. pose proof (read_unsigned_range m A n Hm Hn) as Hu.
  assert (Hs : read m A (Num n) signed_read
               = signExtend (read m A (Num n) default_read) n) by reflexivity.
  rewrite Hs, signExtend_in_range by lia.
  rewrite testbit_top by lia.
  assert (H2 : 2 ^ (n * 8) = 2 * 2 ^ (n * 8 - 1))
    by (rewrite <- Z.pow_succ_r by lia; f_equal; lia).
  destruct (Z.leb_spec (2 ^ (n * 8 - 1)) (read m A (Num n) default_read));
    split; (lia || auto).
Qed.

(** *** The keys of the store *)

Lemma strictly_sorted (l : list Z) :
  StronglySorted Z.le l -> NoDup l -> StronglySorted Z.lt l.
Proof.
  induction 1 as [|x l Hs IH Hall]; intros Hnd; constructor.
  - apply IH. apply NoDup_cons in Hnd. tauto.
  - apply NoDup_cons in Hnd as [Hx _].
    rewrite Forall_forall in *. intros y Hy.
    specialize (Hall y Hy). assert (x <> y) by (intros ->; auto). lia.
Qed.

Lemma elem_of_getUsedAddresses m a :
  a ∈ getUsedAddresses m <-> is_Some (store m !! a).
Proof.
  unfold getUsedAddresses. rewrite merge_sort_Permutation.
  rewrite list_elem_of_fmap. split.
  - intros [[k v] [-> Hkv]]. apply elem_of_map_to_list in Hkv. simpl. eauto.
  - intros [v Hv]. exists (a, v). split; [reflexivity|].
    apply elem_of_map_to_list. exact Hv.
Qed.

Lemma store_write_loop n : forall m a v x,
  is_Some (store (write_loop m a n v) !! x)
  <-> a <= x < a + Z.of_nat n \/ is_Some (store m !! x).
Proof.
  induction n as [|i IH]; intros m a v x.
  - simpl. intuition lia.
  - cbn [write_loop]. rewrite IH. unfold writeByte. simpl.
    rewrite lookup_insert_is_Some. 
    destruct (decide (a + Z.of_nat i = x)); intuition lia.
Qed.

End Memory64Facts.

(** * Facts about the formatting helpers *)

Module FormatFacts.
Local Open Scope string_scope.

Lemma digits_of_length fuel : forall radix n acc (k : nat),
  2 <= radix -> 0 <= n < radix ^ Z.of_nat k -> (1 <= k)%nat ->
  (String.length acc <= String.length (digits_of fuel radix n acc)
   <= String.length acc + k)%nat.
Proof.
  induction fuel as [|fuel IH]; intros radix n acc k Hr Hn Hk; cbn [digits_of].
  - lia.
  - destruct (Z.eqb_spec (n / radix) 0) as [Hz|Hnz]; [simpl; lia|].
    assert (Hge : radix <= n).
    { destruct (Z.lt_ge_cases n radix) as [Hlt|]; [|assumption].
      rewrite Z.div_small in Hnz by lia. congruence. }
    destruct k as [|[|k]]; [lia| |].
    + rewrite Z.pow_1_r in Hn. lia.
    + specialize (IH radix (n / radix) (String (digit_char (n mod radix)) acc)
                    (S k) Hr).
      cbn [String.length] in IH.
      assert (Hq : 0 <= n / radix < radix ^ Z.of_nat (S k)).
      { split; [apply Z.div_pos; lia|].
        apply Z.div_lt_upper_bound; [lia|].
        rewrite <- Z.pow_succ_r by lia.
        replace (Z.succ (Z.of_nat (S k))) with (Z.of_nat (S (S k))) by lia.
        lia. }
      specialize (IH Hq ltac:(lia)). lia.
Qed.

Lemma length_toUpperCase s : String.length (toUpperCase s) = String.length s.
Proof. induction s as [|c s IH]; simpl; congruence. Qed.

Lemma length_repeat_char c n : String.length (repeat_char c n) = n.
Proof. induction n as [|n IH]; simpl; congruence. Qed.

Lemma length_string_app s1 s2 :
  String.length (s1 ++ s2) = (String.length s1 + String.length s2)%nat.
Proof.
  induction s1 as [|c s1 IH]; [reflexivity|].
  change (String c s1 ++ s2) with (String c (s1 ++ s2)).
  cbn [String.length]. rewrite IH. reflexivity.
Qed.

Lemma length_padStart s d c :
  Z.of_nat (String.length (padStart s d c)) = Z.max d (Z.of_nat (String.length s)).
Proof.
  unfold padStart. destruct (Z.leb_spec d (Z.of_nat (String.length s))).
  - lia.
  - rewrite length_string_app, length_repeat_char. lia.
Qed.

Lemma length_toString_hex v :
  0 <= v < 2 ^ 64 -> (String.length (BigInt_toString 16 v) <= 16)%nat.
Proof.
  intros Hv. unfold BigInt_toString.
  destruct (Z.ltb_spec v 0) as [Hneg|_]; [lia|].
  rewrite Z.abs_eq by lia.
  pose proof (digits_of_length (S (Z.to_nat (Z.log2 v))) 16 v EmptyString 16
                ltac:(lia) ltac:(change (16 ^ Z.of_nat 16) with (2 ^ 64); lia)
                ltac:(lia)) as [_ Hlen].
  exact Hlen.
Qed.

Lemma length_formatHex_64 v :
  - 2 ^ 64 <= v < 2 ^ 64 -> String.length (formatHex v 16) = 16%nat.
Proof.
  intros Hv. unfold formatHex.
  assert (Hw : 0 <= (if (v <? 0)%Z then Z.shiftl 1 64 + v else v) < 2 ^ 64).
  { change (Z.shiftl 1 64) with (2 ^ 64). destruct (Z.ltb_spec v 0); lia. }
  pose proof (length_toString_hex _ Hw) as Hlen.
  pose proof (length_padStart
                (toUpperCase
                   (BigInt_toString 16
                      (if (v <? 0)%Z then Z.shiftl 1 64 + v else v))) 16 "0") as Hp.
  rewrite length_toUpperCase in Hp. lia.
Qed.

Lemma formatSigned_unsigned v :
  0 <= v < 2 ^ 64 ->
  formatSigned v = BigInt_toString 10 (if (v <? 2 ^ 63)%Z then v else v - 2 ^ 64).
Proof.
  intros Hv. unfold formatSigned. rewrite Memory64Facts.land_bit by lia.
  rewrite negb_involutive.
  change 63 with (64 - 1). rewrite Memory64Facts.testbit_top by lia. change (64 - 1) with 63.
  change (Z.shiftl 1 64) with (2 ^ 64).
  destruct (Z.leb_spec (2 ^ 63) v), (Z.ltb_spec v (2 ^ 63)); try lia; reflexivity.
Qed.

Lemma twos_complement_mod s :
  - 2 ^ 64 <= s < 2 ^ 64 ->
  s mod 2 ^ 64 = if (s <? 0)%Z then 2 ^ 64 + s else s.
Proof.
  intros Hs. destruct (Z.ltb_spec s 0).
  - replace s with (2 ^ 64 + s + (-1) * 2 ^ 64) at 1 by lia.
    rewrite Z.mod_add by lia. apply Z.mod_small. lia.
  - apply Z.mod_small. lia.
Qed.

(** Formatting the 64-bit pattern of a signed 64-bit value gives back its
    decimal, and the same hexadecimal as the value itself. *)
Lemma format_of_pattern s :
  - 2 ^ 63 <= s < 2 ^ 63 ->
  formatSigned (s mod 2 ^ 64) = BigInt_toString 10 s
  /\ formatHex (s mod 2 ^ 64) 16 = formatHex s 16.
Proof.
  intros Hs. pose proof (twos_complement_mod s ltac:(lia)) as Hm. split.
  - rewrite formatSigned_unsigned by (apply Z.mod_pos_bound; lia).
    rewrite Hm. f_equal.
    destruct (Z.ltb_spec s 0), (Z.ltb_spec (2 ^ 64 + s) (2 ^ 63)),
      (Z.ltb_spec s (2 ^ 63)); lia.
  - rewrite Hm. unfold formatHex. change (Z.shiftl 1 64) with (2 ^ 64).
    destruct (Z.ltb_spec s 0) as [Hneg|Hpos].
    + destruct (Z.ltb_spec (2 ^ 64 + s) 0); [lia | reflexivity].
    + destruct (Z.ltb_spec s 0); [lia | reflexivity].
Qed.

(** *** The digits of [formatHex] denote its value *)

Lemma hex_digit_upper d :
  0 <= d < 16 -> hex_digit_value (upper_char (digit_char d)) = Some d.
Proof.
  intros Hd.
  assert (Hall : forallb
                   (fun n =>
                      match hex_digit_value
                              (upper_char (digit_char (Z.of_nat n))) with
                      | Some v => (v =? Z.of_nat n)%Z
                      | None => false
                      end)
                   (seq 0 16) = true) by (vm_compute; reflexivity).
  rewrite forallb_forall in Hall.
  specialize (Hall (Z.to_nat d) ltac:(apply in_seq; lia)).
  rewrite Z2Nat.id in Hall by lia.
  destruct (hex_digit_value (upper_char (digit_char d))) as [v|]; [|discriminate].
  apply Z.eqb_eq in Hall. congruence.
Qed.

Lemma hex_value_digits fuel : forall n acc a,
  0 <= n < 2 ^ Z.of_nat fuel ->
  hex_value (toUpperCase acc) = Some a ->
  hex_value (toUpperCase (digits_of fuel 16 n acc))
  = Some (n * 16 ^ Z.of_nat (String.length acc) + a).
Proof.
  induction fuel as [|fuel IH]; intros n acc a Hn Hacc.
  - cbn [digits_of]. change (2 ^ Z.of_nat 0) with 1 in Hn.
    replace n with 0 by lia. rewrite Hacc. f_equal.
  - cbn [digits_of].
    assert (Hstep : hex_value (toUpperCase (String (digit_char (n mod 16)) acc))
                    = Some (n mod 16 * 16 ^ Z.of_nat (String.length acc) + a)).
    { cbn [toUpperCase hex_value].
      rewrite hex_digit_upper by (apply Z.mod_pos_bound; lia).
      rewrite Hacc, length_toUpperCase. reflexivity. }
    destruct (Z.eqb_spec (n / 16) 0) as [Hz|Hnz].
    + rewrite Hstep. do 2 f_equal.
      pose proof (Z.div_mod n 16 ltac:(lia)). lia.
    + assert (Hq : 0 <= n / 16 < 2 ^ Z.of_nat fuel).
      { split; [apply Z.div_pos; lia|].
        apply Z.div_lt_upper_bound; [lia|].
        rewrite Nat2Z.inj_succ, Z.pow_succ_r in Hn by lia.
        assert (0 < 2 ^ Z.of_nat fuel) by (apply Z.pow_pos_nonneg; lia). lia. }
      rewrite (IH _ _ _ Hq Hstep).
      f_equal. cbn [String.length].
        rewrite Nat2Z.inj_succ, Z.pow_succ_r by lia.
        pose proof (Z.div_mod n 16 ltac:(lia)) as Hdm.
        set (p := 16 ^ Z.of_nat (String.length acc)).
        replace (n * p) with ((16 * (n / 16) + n mod 16) * p)
          by (rewrite <- Hdm; reflexivity).
        ring.
Qed.

Lemma hex_value_toString v :
  0 <= v -> hex_value (toUpperCase (BigInt_toString 16 v)) = Some v.
Proof.
  intros Hv. unfold BigInt_toString.
  destruct (Z.ltb_spec v 0); [lia|]. rewrite Z.abs_eq by lia.
  rewrite (hex_value_digits _ v EmptyString 0).
  - f_equal. simpl. lia.
  - split; [lia|].
    rewrite Nat2Z.inj_succ, Z2Nat.id by apply Z.log2_nonneg.
    destruct (Z.eq_dec v 0) as [->|Hne]; [reflexivity|].
    apply Z.log2_spec. lia.
  - reflexivity.
Qed.

Lemma hex_value_zeros k s :
  hex_value (repeat_char "0" k ++ s) = hex_value s.
Proof.
  induction k as [|k IH]; [reflexivity|].
  change (repeat_char "0" (S k) ++ s) with (String "0" (repeat_char "0" k ++ s)).
  cbn [hex_value]. rewrite IH.
  change (hex_digit_value "0") with (Some 0).
  destruct (hex_value s); [f_equal|reflexivity].
Qed.

Lemma hex_value_padStart s d :
  hex_value (padStart s d "0") = hex_value s.
Proof.
  unfold padStart. destruct (d <=? Z.of_nat (String.length s))%Z; [reflexivity|].
  apply hex_value_zeros.
Qed.

Lemma hex_value_formatHex v d :
  - 2 ^ 64 <= v ->
  hex_value (formatHex v d) = Some (if (v <? 0)%Z then 2 ^ 64 + v else v).
Proof.
  intros Hv. unfold formatHex. rewrite hex_value_padStart.
  change (Z.shiftl 1 64) with (2 ^ 64).
  apply hex_value_toString. destruct (Z.ltb_spec v 0); lia.
Qed.

End FormatFacts.

(** * Facts about the register file *)

Module MMIXFacts.
Import MMIX.

Lemma length_set a k v :
  length (BigUint64Array.set a k v) = length a.
Proof.
  destruct k as [z|]; simpl; try reflexivity.
  destruct (0 <=? z); [apply length_insert | reflexivity].
Qed.

Lemma sized_new : sized new.
Proof. split; reflexivity. Qed.

Lemma sized_step m op : sized m -> sized (step m op).
Proof.
  intros [Hr Hs]. destruct op; split; simpl; rewrite ?length_set; assumption.
Qed.

Lemma sized_fold ops : forall m, sized m -> sized (fold_left step ops m).
Proof.
  induction ops as [|op ops IH]; intros m Hm; simpl; [exact Hm|].
  apply IH, sized_step, Hm.
Qed.

Lemma sized_run ops : sized (run ops).
Proof. apply sized_fold, sized_new. Qed.

Lemma get_out_of_range a i :
  ~ (0 <= i < Z.of_nat (length a)) -> BigUint64Array.get a (Int i) = JUndefined.
Proof.
  intros Hi. unfold BigUint64Array.get.
  destruct (Z.leb_spec 0 i) as [Hle|Hlt]; [|reflexivity].
  rewrite lookup_ge_None_2 by lia. reflexivity.
Qed.

Lemma get_in_range a i :
  0 <= i < Z.of_nat (length a) -> exists v, BigUint64Array.get a (Int i) = JBigInt v.
Proof.
  intros Hi. unfold BigUint64Array.get.
  destruct (Z.leb_spec 0 i) as [Hle|Hlt]; [|lia].
  destruct (lookup_lt_is_Some_2 a (Z.to_nat i) ltac:(lia)) as [v Hv].
  rewrite Hv. eauto.
Qed.

Lemma set_out_of_range a i v :
  ~ (0 <= i < Z.of_nat (length a)) -> BigUint64Array.set a (Int i) v = a.
Proof.
  intros Hi. unfold BigUint64Array.set.
  destruct (Z.leb_spec 0 i) as [Hle|Hlt]; [|reflexivity].
  apply list_insert_ge. lia.
Qed.

Lemma get_fill a v i :
  0 <= i < Z.of_nat (length a) ->
  BigUint64Array.get (BigUint64Array.fill a v) (Int i) = JBigInt (v mod 2 ^ 64).
Proof.
  intros Hi. unfold BigUint64Array.fill, BigUint64Array.get.
  destruct (Z.leb_spec 0 i) as [Hle|Hlt]; [|lia].
  rewrite lookup_replicate_2 by lia. reflexivity.
Qed.

Lemma reads_back_all :
  forallb reads_back (map Z.of_nat (seq 0 256)) = true.
Proof. vm_compute. reflexivity. Qed.

Lemma parseInt_decimal k : 0 <= k < 256 -> parseInt (decimal k) = Int k.
Proof.
  intros Hk. pose proof reads_back_all as Hall.
  rewrite forallb_forall in Hall.
  specialize (Hall k). unfold reads_back in Hall.
  destruct (parseInt (decimal k)) as [z|].
  - f_equal. apply Z.eqb_eq, Hall.
    apply in_map_iff. exists (Z.to_nat k). split; [lia|].
    apply in_seq. lia.
  - assert (false = true) as Hf; [|discriminate].
    apply Hall, in_map_iff. exists (Z.to_nat k). split; [lia|]. apply in_seq. lia.
Qed.

(** Every mnemonic of the table is found with its own slot, and no
    mnemonic starts with a dollar sign. *)
Lemma SpecialReg_own name slot :
  In (name, slot) SpecialReg ->
  own_property SpecialReg name = Some slot
  /\ startsWith_dollar name = false /\ 0 <= slot < 32.
Proof.
  unfold SpecialReg. intros H.
  repeat (destruct H as [H|H];
          [injection H as <- <-; vm_compute; intuition discriminate|]).
  destruct H.
Qed.


(** *** Stores into the register arrays *)

Lemma land_mask64 v : Z.land v (Z.shiftl 1 64 - 1) = v mod 2 ^ 64.
Proof. change (Z.shiftl 1 64 - 1) with (Z.ones 64). apply Z.land_ones. lia. Qed.

Lemma get_set_eq a i v :
  0 <= i < Z.of_nat (length a) ->
  BigUint64Array.get (BigUint64Array.set a (Int i) v) (Int i) = JBigInt (v mod 2 ^ 64).
Proof.
  intros Hi. unfold BigUint64Array.get, BigUint64Array.set.
  destruct (Z.leb_spec 0 i); [|lia].
  rewrite list_lookup_insert_eq by lia. reflexivity.
Qed.

Lemma get_set_ne a i j v :
  i <> j ->
  BigUint64Array.get (BigUint64Array.set a (Int i) v) (Int j) = BigUint64Array.get a (Int j).
Proof.
  intros Hij. unfold BigUint64Array.get, BigUint64Array.set.
  destruct (Z.leb_spec 0 i); [|reflexivity].
  destruct (Z.leb_spec 0 j); [|reflexivity].
  rewrite list_lookup_insert_ne by lia. reflexivity.
Qed.

Lemma setReg_inv m i v m' :
  setReg m i v = Return m' ->
  m' = {| mem := mem m;
          reg := BigUint64Array.set (reg m) i (Z.land v (Z.shiftl 1 64 - 1));
          sreg := sreg m; pc := pc m |}.
Proof. unfold setReg. congruence. Qed.

Lemma setSpecialReg_inv m i v m' :
  setSpecialReg m i v = Return m' ->
  m' = {| mem := mem m; reg := reg m;
          sreg := BigUint64Array.set (sreg m) i (Z.land v (Z.shiftl 1 64 - 1));
          pc := pc m |}.
Proof. unfold setSpecialReg. congruence. Qed.

(** *** Invariants of the reachable states *)

Lemma Forall_set a k v :
  Forall (fun v => 0 <= v < 2 ^ 64) a ->
  Forall (fun v => 0 <= v < 2 ^ 64) (BigUint64Array.set a k v).
Proof.
  intros Ha. destruct k as [z|]; simpl; try exact Ha.
  destruct (0 <=? z); [|exact Ha].
  apply Forall_insert; [exact Ha|]. apply Z.mod_pos_bound. lia.
Qed.

Lemma invariants_step m op :
  regs_ok m /\ Memory64.bytes_ok (mem m) ->
  regs_ok (step m op) /\ Memory64.bytes_ok (mem (step m op)).
Proof.
  intros [[Hr Hs] Hb].
  destruct op; (split; [split|]); cbn [step setReg setSpecialReg set_mem reg sreg mem];
    auto using Forall_set, Memory64Facts.bytes_ok_writeByte,
      Memory64Facts.bytes_ok_write.
Qed.

Lemma invariants_fold ops : forall m,
  regs_ok m /\ Memory64.bytes_ok (mem m) ->
  regs_ok (fold_left step ops m)
  /\ Memory64.bytes_ok (mem (fold_left step ops m)).
Proof.
  induction ops as [|op ops IH]; intros m Hm; simpl; [exact Hm|].
  apply IH, invariants_step, Hm.
Qed.

Lemma invariants_new : regs_ok MMIX.new /\ Memory64.bytes_ok (mem MMIX.new).
Proof.
  split; [split|apply Memory64Facts.bytes_ok_new]; apply Forall_replicate; lia.
Qed.

Lemma reachable_invariants ops :
  regs_ok (run ops) /\ Memory64.bytes_ok (mem (run ops)).
Proof. apply invariants_fold, invariants_new. Qed.

Lemma get_bounded a i :
  Forall (fun v => 0 <= v < 2 ^ 64) a ->
  0 <= i < Z.of_nat (length a) ->
  exists v, BigUint64Array.get a (Int i) = JBigInt v /\ 0 <= v < 2 ^ 64.
Proof.
  intros Ha Hi. unfold BigUint64Array.get.
  destruct (Z.leb_spec 0 i); [|lia].
  destruct (lookup_lt_is_Some_2 a (Z.to_nat i) ltac:(lia)) as [v Hv].
  rewrite Hv. exists v. split; [reflexivity|].
  rewrite Forall_lookup in Ha. exact (Ha _ _ Hv).
Qed.

(** *** Names of registers *)

Lemma getRegByName_mnemonic m name slot :
  In (name, slot) SpecialReg ->
  getRegByName m name = getSpecialReg m (Int slot).
Proof.
  intros Hin. destruct (SpecialReg_own name slot Hin) as (Hown & Hd & _).
  unfold getRegByName, in_SpecialReg, SpecialReg_get. rewrite Hd, Hown. reflexivity.
Qed.

Lemma getRegByName_dollar m k :
  0 <= k < 256 ->
  getRegByName m (String "$" (decimal k)) = getReg m (Int k).
Proof.
  intros Hk. unfold getRegByName. cbn [startsWith_dollar slice1].
  rewrite Ascii.eqb_refl, parseInt_decimal by lia. reflexivity.
Qed.

Lemma every_slot_named s :
  0 <= s < 32 -> exists name, In (name, s) SpecialReg.
Proof.
  intros Hs.
  assert (Hall : forallb slot_named (map Z.of_nat (seq 0 32)) = true)
    by (vm_compute; reflexivity).
  rewrite forallb_forall in Hall.
  specialize (Hall s). unfold slot_named in Hall.
  rewrite existsb_exists in Hall.
  destruct Hall as ([name s'] & Hin & Heq).
  - apply in_map_iff. exists (Z.to_nat s). split; [lia|]. apply in_seq. lia.
  - apply Z.eqb_eq in Heq. simpl in Heq. subst s'. eauto.
Qed.

Lemma SpecialReg_slots_distinct name1 slot1 name2 slot2 :
  In (name1, slot1) SpecialReg -> In (name2, slot2) SpecialReg ->
  name1 <> name2 -> slot1 <> slot2.
Proof.
  intros H1 H2 Hne Heq. subst slot2. apply Hne.
  assert (Hnd : NoDup (map snd SpecialReg))
    by (apply (bool_decide_unpack _); vm_compute; exact I).
  apply list_elem_of_In, list_elem_of_lookup in H1 as [i1 Hi1].
  apply list_elem_of_In, list_elem_of_lookup in H2 as [i2 Hi2].
  assert (i1 = i2).
  { apply (NoDup_lookup _ i1 i2 slot1 Hnd).
    - change (map snd SpecialReg) with (snd <$> SpecialReg).
      rewrite list_lookup_fmap, Hi1. reflexivity.
    - change (map snd SpecialReg) with (snd <$> SpecialReg).
      rewrite list_lookup_fmap, Hi2. reflexivity. }
  subst i2. congruence.
Qed.

(** *** The state summary *)

Lemma special_entries_ok m : forall table,
  (forall name slot, In (name, slot) table -> 0 <= slot < Z.of_nat (length (sreg m))) ->
  exists es, special_entries m table = Return es
    /\ map r_name es = map fst table
    /\ map r_index es = map snd table
    /\ (forall e, In e es ->
          In (r_name e, r_index e) table
          /\ exists v, BigUint64Array.get (sreg m) (Int (r_index e)) = JBigInt v
                       /\ r_value e = formatHex v 16
                       /\ r_decimal e = formatSigned v).
Proof.
  induction table as [|[name slot] rest IH]; intros Hslots.
  - exists []. split; [reflexivity|]. split; [reflexivity|].
    split; [reflexivity|]. intros e' [].
  - destruct IH as (es & Hes & Hnames & Hidx & Hall).
    { intros n s Hin. apply (Hslots n s). right. exact Hin. }
    destruct (get_in_range (sreg m) slot (Hslots name slot (or_introl eq_refl)))
      as [v Hv].
    cbn [special_entries]. rewrite Hv, Hes. cbn [bind].
    eexists. split; [reflexivity|]. cbn [map r_name r_index fst snd].
    rewrite Hnames, Hidx. split; [reflexivity|]. split; [reflexivity|].
    intros e' [<-|Hin].
    + cbn [r_name r_index r_value r_decimal]. split; [left; reflexivity|].
      exists v. auto.
    + destruct (Hall e' Hin) as [Htab Hval]. split; [right; exact Htab | exact Hval].
Qed.

Lemma register_entries_spec m e :
  In e (register_entries m) ->
  exists i v, reg m !! i = Some v
    /\ r_index e = Z.of_nat i
    /\ r_name e = String "$" (decimal (Z.of_nat i))
    /\ r_value e = formatHex v 16
    /\ r_decimal e = formatSigned v.
Proof.
  unfold register_entries. intros Hin.
  apply list_elem_of_In, list_elem_of_lookup in Hin as [i Hi].
  rewrite list_lookup_imap in Hi.
  destruct (reg m !! i) as [v|] eqn:Hv; [|discriminate].
  injection Hi as <-. exists i, v. cbn [r_index r_name r_value r_decimal].
  auto 6.
Qed.

End MMIXFacts.

(** * Properties of the specification *)

Import Memory64 Memory64Facts MMIX MMIXFacts.
Local Open Scope string_scope.

(** ** Reset *)

(** C1, as stated, fails: [reset()] calls [mem.clear()], so a byte written
    before the reset does not read the same afterwards. *)
Lemma reset_changes_memory :
  readByte (mem (reset (run [OpWriteByte 0 1]))) 0
  <> readByte (mem (run [OpWriteByte 0 1])) 0.
Proof. vm_compute. discriminate. Qed.

(** C1, amended: for every machine state reached by register writes,
    memory writes and program-counter assignments, after [reset()] every
    general register, every special register and the program counter read
    as 0, and the memory store is cleared: [readByte] returns 0 at every
    address. *)
Theorem reset_zeroes_registers_and_clears_memory (ops : list Op) :
  (forall i, 0 <= i < 256 ->
     getReg (reset (run ops)) (Int i) = Return (JBigInt 0))
  /\ (forall i, 0 <= i < 32 ->
        getSpecialReg (reset (run ops)) (Int i) = Return (JBigInt 0))
  /\ pc (reset (run ops)) = 0
  /\ (forall a, readByte (mem (reset (run ops))) a = 0).
Proof.
  destruct (sized_run ops) as [Hr Hs].
  split; [|split; [|split]].
  - intros i Hi. unfold getReg, reset; cbn [reg].
    rewrite get_fill by lia. reflexivity.
  - intros i Hi. unfold getSpecialReg, reset; cbn [sreg].
    rewrite get_fill by lia. reflexivity.
  - reflexivity.
  - intros a. apply readByte_clear.
Qed.

Lemma reset_zeroes_registers_and_clears_memory_witness :
  (0 <= 5 < 256
   /\ getReg (reset (run [OpSetReg (Int 5) 7; OpSetPc 12])) (Int 5)
      = Return (JBigInt 0))
  /\ (0 <= 21 < 32
      /\ getSpecialReg (reset (run [OpSetReg (Int 5) 7; OpSetPc 12])) (Int 21)
         = Return (JBigInt 0)).
Proof.
  pose proof (reset_zeroes_registers_and_clears_memory
                [OpSetReg (Int 5) 7; OpSetPc 12]) as (Hreg & Hsreg & _).
  split; (split; [lia|]).
  - apply Hreg. lia.
  - apply Hsreg. lia.
Defined.

(** ** Out-of-range register indices *)

(** C2, as stated, fails: no accessor raises on an index outside the
    array; index 256 (resp. 32) is accepted silently. *)
Lemma out_of_range_access_does_not_raise :
  ~ raises (getReg new (Int 256))
  /\ ~ raises (setReg new (Int 256) 1)
  /\ ~ raises (getSpecialReg new (Int 32))
  /\ ~ raises (setSpecialReg new (Int 32) 1).
Proof. repeat split; intros [e He]; discriminate He. Qed.

(** C2, amended: for every index [i] outside [0, 256), [getReg(i)]
    returns [undefined] and [setReg(i, v)] returns normally for every
    value [v], neither raising an error; likewise [getSpecialReg] and
    [setSpecialReg] for every index outside [0, 32). *)
Theorem out_of_range_access_returns_normally (ops : list Op) (i v : Z) :
  (~ (0 <= i < 256) ->
     getReg (run ops) (Int i) = Return JUndefined
     /\ exists m', setReg (run ops) (Int i) v = Return m')
  /\ (~ (0 <= i < 32) ->
        getSpecialReg (run ops) (Int i) = Return JUndefined
        /\ exists m', setSpecialReg (run ops) (Int i) v = Return m').
Proof.
  destruct (sized_run ops) as [Hr Hs].
  split; intros Hi; (split; [|eexists; reflexivity]).
  - unfold getReg. rewrite get_out_of_range by lia. reflexivity.
  - unfold getSpecialReg. rewrite get_out_of_range by lia. reflexivity.
Qed.

Lemma out_of_range_access_returns_normally_witness :
  (~ (0 <= 256 < 256)
   /\ getReg (run [OpSetReg (Int 0) 9]) (Int 256) = Return JUndefined)
  /\ (~ (0 <= -1 < 32)
      /\ getSpecialReg (run [OpSetReg (Int 0) 9]) (Int (-1)) = Return JUndefined).
Proof.
  split.
  - split; [lia|].
    apply (proj1 (out_of_range_access_returns_normally
                    [OpSetReg (Int 0) 9] 256 0)). lia.
  - split; [lia|].
    apply (proj2 (out_of_range_access_returns_normally
                    [OpSetReg (Int 0) 9] (-1) 0)). lia.
Defined.

(** C10: for every index [i] outside [0, 256) and every value [v],
    [setReg(i, v)] completes without raising and leaves the whole machine
    state unchanged, and [getReg(i)] completes without raising and returns
    no stored register value ([undefined]); the same holds for
    [setSpecialReg]/[getSpecialReg] with an index outside [0, 32). *)
Theorem out_of_range_access_leaves_state (ops : list Op) (i v : Z) :
  (~ (0 <= i < 256) ->
     setReg (run ops) (Int i) v = Return (run ops)
     /\ getReg (run ops) (Int i) = Return JUndefined)
  /\ (~ (0 <= i < 32) ->
        setSpecialReg (run ops) (Int i) v = Return (run ops)
        /\ getSpecialReg (run ops) (Int i) = Return JUndefined).
Proof.
  destruct (sized_run ops) as [Hr Hs].
  split; intros Hi; split.
  - unfold setReg. rewrite set_out_of_range by lia.
    destruct (run ops); reflexivity.
  - unfold getReg. rewrite get_out_of_range by lia. reflexivity.
  - unfold setSpecialReg. rewrite set_out_of_range by lia.
    destruct (run ops); reflexivity.
  - unfold getSpecialReg. rewrite get_out_of_range by lia. reflexivity.
Qed.

Lemma out_of_range_access_leaves_state_witness :
  (~ (0 <= 300 < 256)
   /\ setReg (run [OpSetReg (Int 3) 4]) (Int 300) 77
      = Return (run [OpSetReg (Int 3) 4]))
  /\ (~ (0 <= 32 < 32)
      /\ setSpecialReg (run [OpSetReg (Int 3) 4]) (Int 32) 77
         = Return (run [OpSetReg (Int 3) 4])).
Proof.
  split.
  - split; [lia|].
    apply (proj1 (out_of_range_access_leaves_state
                    [OpSetReg (Int 3) 4] 300 77)). lia.
  - split; [lia|].
    apply (proj2 (out_of_range_access_leaves_state
                    [OpSetReg (Int 3) 4] 32 77)). lia.
Defined.

(** ** Register lookup by name *)

(** C3, as stated, fails: a dollar sign followed by an index outside
    [0, 255] does not fail with the unknown-register error, the lookup
    returns [undefined]. *)
Lemma getRegByName_out_of_range_does_not_raise :
  getRegByName new "$256" = Return JUndefined
  /\ ~ raises (getRegByName new "$256").
Proof.
  split; [vm_compute; reflexivity|].
  intros [e He]. vm_compute in He. discriminate He.
Qed.

(** C3, amended: [getRegByName(name)] returns the value of general
    register [k] when [name] is a dollar sign followed by the decimal
    index [k] in [0, 255], and more generally whenever [parseInt] reads
    what follows the dollar sign as such a [k] (leading white space, a
    sign and trailing characters are ignored, as in ["$007"]); it returns
    the value of the named special register when [name] is a mnemonic of
    the fixed table; it fails with the unknown-register error when [name]
    neither starts with a dollar sign nor is a property of the table
    object; and for a name that starts with a dollar sign it never fails:
    when what follows parses to no number or to an index outside
    [0, 255], it returns [undefined]. *)
Theorem getRegByName_cases (ops : list Op) :
  (forall k, 0 <= k <= 255 ->
     getRegByName (run ops) (String "$" (decimal k)) = getReg (run ops) (Int k)
     /\ exists v, getReg (run ops) (Int k) = Return (JBigInt v))
  /\ (forall name slot, In (name, slot) SpecialReg ->
        getRegByName (run ops) name = getSpecialReg (run ops) (Int slot)
        /\ exists v, getSpecialReg (run ops) (Int slot) = Return (JBigInt v))
  /\ (forall name, startsWith_dollar name = false ->
        in_SpecialReg name = false ->
        getRegByName (run ops) name = Throw (UnknownRegister name))
  /\ (forall rest,
        parseInt rest = NaN
        \/ (exists z, parseInt rest = Int z /\ ~ (0 <= z <= 255)) ->
        getRegByName (run ops) (String "$" rest) = Return JUndefined)
  /\ (forall rest z, parseInt rest = Int z -> 0 <= z <= 255 ->
        getRegByName (run ops) (String "$" rest) = getReg (run ops) (Int z)
        /\ exists v, getReg (run ops) (Int z) = Return (JBigInt v))
  /\ (forall name, startsWith_dollar name = true ->
        ~ raises (getRegByName (run ops) name)).
Proof.
  destruct (sized_run ops) as [Hr Hs].
  split; [|split; [|split; [|split; [|split]]]].
  - intros k Hk. split.
    + unfold getRegByName. cbn [startsWith_dollar slice1].
      rewrite Ascii.eqb_refl, parseInt_decimal by lia. reflexivity.
    + destruct (get_in_range (reg (run ops)) k ltac:(lia)) as [v Hv].
      exists v. unfold getReg. rewrite Hv. reflexivity.
  - intros name slot Hin.
    destruct (SpecialReg_own name slot Hin) as (Hown & Hd & Hslot). split.
    + unfold getRegByName, in_SpecialReg, SpecialReg_get.
      rewrite Hd, Hown. reflexivity.
    + destruct (get_in_range (sreg (run ops)) slot ltac:(lia)) as [v Hv].
      exists v. unfold getSpecialReg. rewrite Hv. reflexivity.
  - intros name Hd Hin. unfold getRegByName. rewrite Hd, Hin. reflexivity.
  - intros rest Hrest. unfold getRegByName. cbn [startsWith_dollar slice1].
    rewrite Ascii.eqb_refl.
    destruct Hrest as [-> | (z & -> & Hz)]; [reflexivity|].
    unfold getReg. rewrite get_out_of_range by lia. reflexivity.
  - intros rest z Hparse Hz. split.
    + unfold getRegByName. cbn [startsWith_dollar slice1].
      rewrite Ascii.eqb_refl, Hparse. reflexivity.
    + destruct (get_in_range (reg (run ops)) z ltac:(lia)) as [v Hv].
      exists v. unfold getReg. rewrite Hv. reflexivity.
  - intros name Hd [e He]. unfold getRegByName in He. rewrite Hd in He.
    discriminate He.
Qed.

Lemma getRegByName_cases_witness :
  (0 <= 42 <= 255
   /\ getRegByName (run [OpSetReg (Int 42) 0x999]) "$42"
      = getReg (run [OpSetReg (Int 42) 0x999]) (Int 42))
  /\ (In ("rA", 21) SpecialReg
      /\ getRegByName (run [OpSetReg (Int 42) 0x999]) "rA"
         = getSpecialReg (run [OpSetReg (Int 42) 0x999]) (Int 21))
  /\ ((startsWith_dollar "pc" = false /\ in_SpecialReg "pc" = false)
      /\ getRegByName (run [OpSetReg (Int 42) 0x999]) "pc"
         = Throw (UnknownRegister "pc"))
  /\ ((exists z, parseInt "256" = Int z /\ ~ (0 <= z <= 255))
      /\ getRegByName (run [OpSetReg (Int 42) 0x999]) "$256"
         = Return JUndefined)
  /\ ((parseInt " +042xyz" = Int 42 /\ 0 <= 42 <= 255)
      /\ getRegByName (run [OpSetReg (Int 42) 0x999]) "$ +042xyz"
         = getReg (run [OpSetReg (Int 42) 0x999]) (Int 42))
  /\ (startsWith_dollar "$abc" = true
      /\ ~ raises (getRegByName (run [OpSetReg (Int 42) 0x999]) "$abc")).
Proof.
  pose proof (getRegByName_cases [OpSetReg (Int 42) 0x999])
    as (Hgen & Hspec & Hunk & Hout & Hparse & Hnever).
  assert (Hin : In ("rA", 21) SpecialReg) by (left; reflexivity).
  assert (Hz : exists z, parseInt "256" = Int z /\ ~ (0 <= z <= 255))
    by (exists 256; split; [reflexivity | lia]).
  split; [|split; [|split; [|split; [|split]]]].
  - split; [lia|]. apply (proj1 (Hgen 42 ltac:(lia))).
  - split; [exact Hin|]. apply (proj1 (Hspec "rA" 21 Hin)).
  - split; [split; reflexivity|]. apply Hunk; reflexivity.
  - split; [exact Hz|]. apply (Hout "256"). right. exact Hz.
  - split; [split; [reflexivity | lia]|].
    apply (proj1 (Hparse " +042xyz" 42 eq_refl ltac:(lia))).
  - split; [reflexivity|]. apply Hnever. reflexivity.
Defined.

(** A register index need not be written canonically: [parseInt] skips
    leading white space, accepts a sign and stops at the first character
    that is no digit. *)
Example getRegByName_noncanonical :
  getRegByName (run [OpSetReg (Int 7) 0x77]) "$007" = Return (JBigInt 0x77)
  /\ getRegByName (run [OpSetReg (Int 7) 0x77]) "$ +7xyz" = Return (JBigInt 0x77)
  /\ getRegByName (run [OpSetReg (Int 7) 0x77]) "$-7" = Return JUndefined
  /\ getRegByName (run [OpSetReg (Int 7) 0x77]) "$" = Return JUndefined.
Proof. vm_compute. repeat split. Qed.

(** The [in] operator also accepts the names inherited from
    [Object.prototype]: such a name is no mnemonic, yet the lookup
    returns [undefined] instead of failing. *)
Example getRegByName_inherited_name :
  getRegByName new "toString" = Return JUndefined.
Proof. reflexivity. Qed.

(** The test "should get register by name" of the repository. *)
Example getRegByName_test :
  getRegByName (run [OpSetReg (Int 42) 0x999]) "$42" = Return (JBigInt 0x999).
Proof. vm_compute. reflexivity. Qed.

(** ** Memory: round trip, byte order, frame *)

(** C4: for every width [W] among BYTE, WYDE, TETRA and OCTA, every value
    [V] and every address [A], [write(A, W, V)] followed by an unsigned
    [read(A, W)] on the same store returns [V] masked to its low [W * 8]
    bits. *)
Theorem write_read_roundtrip (m : Memory64.t) (A V : Z) (W : Width) :
  In W [BYTE; WYDE; TETRA; OCTA] ->
  read (write m A W V default_write) A W default_read
  = Z.land V (2 ^ (width_bytes W * 8) - 1).
Proof.
  intros HW. destruct (named_width_cases W HW) as (n & -> & Hn). clear HW.
  unfold read. cbn [is_HIGH_TETRA orb highTetra default_read signed width_bytes].
  set (v := Z.land V (Z.ones (n * 8))).
  rewrite (read_loop_combine _ _ _ _ _ v).
  - rewrite Z.shiftl_0_l, Z.lor_0_l. subst v.
    rewrite Z2Nat.id by lia. rewrite <- Z.land_assoc.
    replace (8 * n) with (n * 8) by lia. rewrite Z.land_diag.
    rewrite Z.ones_equiv. reflexivity.
  - intros j Hj. rewrite (readByte_write m A (Num n) V default_write).
    cbn [is_HIGH_TETRA orb w_highTetra default_write width_bytes].
    fold v. rewrite decide_True by lia. do 3 f_equal. lia.
Qed.

Lemma write_read_roundtrip_witness :
  In WYDE [BYTE; WYDE; TETRA; OCTA]
  /\ read (write Memory64.new 1001 WYDE 0xFFFFFFFFFFFF1234 default_write)
       1001 WYDE default_read
     = Z.land 0xFFFFFFFFFFFF1234 (2 ^ (width_bytes WYDE * 8) - 1).
Proof.
  split.
  - right; left; reflexivity.
  - apply write_read_roundtrip. right; left; reflexivity.
Defined.

(** C6, as stated, fails: the write aligns the address down to a multiple
    of 8, so at the unaligned address 1001 the first byte read back is the
    second byte of the value, not its most significant one. *)
Lemma write_octa_unaligned_address :
  readByte (write Memory64.new 1001 OCTA 0x0123456789ABCDEF default_write) 1001
    = 0x23
  /\ readByte (write Memory64.new 1001 OCTA 0x0123456789ABCDEF default_write) 1001
     <> Z.land (Z.shiftr 0x0123456789ABCDEF 56) 255.
Proof. split; [vm_compute; reflexivity | vm_compute; discriminate]. Qed.

(** C6, amended: for every address [A] and every value [V], after
    [write(A, OCTA, V)] the eight [readByte] calls at [alignDown(A, 8)],
    ..., [alignDown(A, 8) + 7] yield the eight bytes of [V] from the most
    to the least significant; these are the addresses [A], ..., [A + 7]
    when [A] is a multiple of 8. *)
Theorem write_octa_big_endian (m : Memory64.t) (A V k : Z) :
  0 <= k < 8 ->
  readByte (write m A OCTA V default_write) (alignAddress A OCTA + k)
    = Z.land (Z.shiftr V (8 * (7 - k))) 255
  /\ (A mod 8 = 0 ->
      readByte (write m A OCTA V default_write) (A + k)
        = Z.land (Z.shiftr V (8 * (7 - k))) 255).
Proof.
  intros Hk.
  assert (H : readByte (write m A OCTA V default_write) (alignAddress A OCTA + k)
              = Z.land (Z.shiftr V (8 * (7 - k))) 255).
  { rewrite readByte_write.
    cbn [is_HIGH_TETRA OCTA orb w_highTetra default_write width_bytes].
    fold OCTA. change (Z.of_nat (Z.to_nat 8)) with 8.
    rewrite decide_True by lia.
    replace (8 - 1 - (alignAddress A OCTA + k - alignAddress A OCTA))
      with (7 - k) by lia.
    change 255 with (Z.ones 8). Z.bitblast. }
  split; [exact H|]. intros HA.
  rewrite alignAddress_OCTA_aligned in H by exact HA. exact H.
Qed.

Lemma write_octa_big_endian_witness :
  (0 <= 5 < 8 /\ 1000 mod 8 = 0)
  /\ readByte (write Memory64.new 1000 OCTA 0x0123456789ABCDEF default_write)
       (1000 + 5)
     = Z.land (Z.shiftr 0x0123456789ABCDEF (8 * (7 - 5))) 255.
Proof.
  split; [split; [lia | reflexivity]|].
  apply (proj2 (write_octa_big_endian Memory64.new 1000 0x0123456789ABCDEF 5
                  ltac:(lia))).
  reflexivity.
Defined.

(** The test "should store and load octa in big-endian order" of the
    repository. *)
Example write_octa_spec_example :
  map (readByte (write Memory64.new 1000 OCTA 0x0123456789ABCDEF default_write))
      [1000; 1001; 1002; 1003; 1004; 1005; 1006; 1007]
  = [0x01; 0x23; 0x45; 0x67; 0x89; 0xAB; 0xCD; 0xEF].
Proof. vm_compute. reflexivity. Qed.

(** C9: a [write(A, W, V, options)] with effective width [E] ([E = 4] for
    a high-tetra access, [E = W] otherwise) changes only the bytes at
    [alignDown(A, E)], ..., [alignDown(A, E) + E - 1]: [readByte] at every
    other address returns the same value after the write as before. *)
Theorem write_frame (m : Memory64.t) (A V a : Z) (W : Width) (o : WriteOptions) :
  ~ (alignAddress A (Num (if is_HIGH_TETRA W || w_highTetra o
                          then 4 else width_bytes W)) <= a
     < alignAddress A (Num (if is_HIGH_TETRA W || w_highTetra o
                            then 4 else width_bytes W))
       + (if is_HIGH_TETRA W || w_highTetra o then 4 else width_bytes W)) ->
  readByte (write m A W V o) a = readByte m a.
Proof.
  intros Hout. rewrite readByte_write.
  destruct (decide _) as [Hin|_]; [|reflexivity].
  exfalso. apply Hout. lia.
Qed.

Lemma write_frame_witness :
  ~ (alignAddress 1003 (Num 4) <= 1004 < alignAddress 1003 (Num 4) + 4)
  /\ readByte (write (writeByte Memory64.new 1004 0x55) 1003 HIGH_TETRA
                 0x12345678ABCDEFFF default_write) 1004
     = readByte (writeByte Memory64.new 1004 0x55) 1004.
Proof.
  assert (H : ~ (alignAddress 1003 (Num 4) <= 1004 < alignAddress 1003 (Num 4) + 4))
    by (vm_compute; intros [_ Hlt]; discriminate Hlt).
  split; [exact H|].
  apply (write_frame (writeByte Memory64.new 1004 0x55) 1003
           0x12345678ABCDEFFF 1004 HIGH_TETRA default_write).
  exact H.
Defined.

(** ** High-tetra access *)

(** C5: a high-tetra access (the width [HIGH_TETRA], or any width with
    the [highTetra] option set) aligns to the 4-byte boundary, reads or
    stores exactly 4 bytes and uses the upper half of the 64-bit value.
    With the octabyte 0x0123456789ABCDEF at address 1000,
    [read(1005, HIGH_TETRA)] returns 0x89ABCDEF00000000 whatever the
    [signed] option; [write(1000, HIGH_TETRA, 0x12345678ABCDEFFF)] stores
    the bytes 0x12, 0x34, 0x56, 0x78 at 1000..1003 and nothing else. In
    general the read is the TETRA read shifted left by 32 bits, with its
    low 32 bits zero, and the write is the TETRA write of the value
    shifted right by 32 bits. *)
Theorem high_tetra_access :
  (forall m W o, is_HIGH_TETRA W || highTetra o = true ->
     map (readByte m) [1000; 1001; 1002; 1003; 1004; 1005; 1006; 1007]
       = [0x01; 0x23; 0x45; 0x67; 0x89; 0xAB; 0xCD; 0xEF] ->
     read m 1005 W o = 0x89ABCDEF00000000)
  /\ (forall m W o, is_HIGH_TETRA W || w_highTetra o = true ->
        map (readByte (write m 1000 W 0x12345678ABCDEFFF o))
            [1000; 1001; 1002; 1003]
          = [0x12; 0x34; 0x56; 0x78]
        /\ forall a, ~ (1000 <= a < 1004) ->
             readByte (write m 1000 W 0x12345678ABCDEFFF o) a
             = readByte m a)
  /\ (forall m A W o, is_HIGH_TETRA W || highTetra o = true ->
        read m A W o = Z.shiftl (read m A TETRA default_read) 32
        /\ Z.land (read m A W o) (2 ^ 32 - 1) = 0)
  /\ (forall m A V W o, is_HIGH_TETRA W || w_highTetra o = true ->
        write m A W V o = write m A TETRA (Z.shiftr V 32) default_write).
Proof.
  split; [|split; [|split]].
  - intros m W o Htrig Hbytes. injection Hbytes as _ _ _ _ H4 H5 H6 H7.
    unfold read. rewrite Htrig.
    change (alignAddress 1005 (Num 4)) with 1004.
    change (Z.to_nat 4) with 4%nat. cbn [read_loop].
    change (1004 + 0) with 1004. change (1004 + (0 + 1)) with 1005.
    change (1004 + (0 + 1 + 1)) with 1006.
    change (1004 + (0 + 1 + 1 + 1)) with 1007.
    rewrite H4, H5, H6, H7. reflexivity.
  - intros m W o Htrig. split.
    + cbn [map]. rewrite !readByte_write. rewrite Htrig.
      change (alignAddress 1000 (Num 4)) with 1000.
      repeat (rewrite decide_True by (vm_compute; split; discriminate)).
      reflexivity.
    + intros a Ha. rewrite readByte_write. rewrite Htrig.
      change (alignAddress 1000 (Num 4)) with 1000.
      change (Z.of_nat (Z.to_nat 4)) with 4.
      rewrite decide_False by lia. reflexivity.
  - intros m A W o Htrig.
    assert (H : read m A W o = Z.shiftl (read m A TETRA default_read) 32)
      by (unfold read at 1; rewrite Htrig; reflexivity).
    split; [exact H|]. rewrite H. change (2 ^ 32 - 1) with (Z.ones 32).
    Z.bitblast. rewrite Z.testbit_neg_r by lia. reflexivity.
  - intros m A V W o Htrig. unfold write at 1. rewrite Htrig. reflexivity.
Qed.

Lemma high_tetra_access_witness :
  ((is_HIGH_TETRA HIGH_TETRA || highTetra signed_read = true
    /\ map (readByte (write Memory64.new 1000 OCTA 0x0123456789ABCDEF
                        default_write))
         [1000; 1001; 1002; 1003; 1004; 1005; 1006; 1007]
       = [0x01; 0x23; 0x45; 0x67; 0x89; 0xAB; 0xCD; 0xEF])
   /\ read (write Memory64.new 1000 OCTA 0x0123456789ABCDEF default_write)
        1005 HIGH_TETRA signed_read
      = 0x89ABCDEF00000000)
  /\ ((is_HIGH_TETRA OCTA
       || highTetra {| signed := true; highTetra := true |} = true
       /\ map (readByte (write Memory64.new 1000 OCTA 0x0123456789ABCDEF
                           default_write))
            [1000; 1001; 1002; 1003; 1004; 1005; 1006; 1007]
          = [0x01; 0x23; 0x45; 0x67; 0x89; 0xAB; 0xCD; 0xEF])
      /\ read (write Memory64.new 1000 OCTA 0x0123456789ABCDEF default_write)
           1005 OCTA {| signed := true; highTetra := true |}
         = 0x89ABCDEF00000000)
  /\ ((is_HIGH_TETRA WYDE || w_highTetra {| w_highTetra := true |} = true
       /\ ~ (1000 <= 1004 < 1004))
      /\ readByte (write (writeByte Memory64.new 1004 0x55) 1000 WYDE
                     0x12345678ABCDEFFF {| w_highTetra := true |}) 1004
         = readByte (writeByte Memory64.new 1004 0x55) 1004).
Proof.
  pose proof high_tetra_access as (Hread & Hwrite & _).
  split; [|split].
  - split; [split; reflexivity|]. apply Hread; reflexivity.
  - split; [split; reflexivity|]. apply Hread; reflexivity.
  - split; [split; [reflexivity | lia]|].
    apply (proj2 (Hwrite (writeByte Memory64.new 1004 0x55) WYDE
                    {| w_highTetra := true |} eq_refl)).
    lia.
Defined.

(** The [highTetra] option makes an access of any width a high-tetra
    access. *)
Example high_tetra_option :
  read (write Memory64.new 1000 OCTA 0x0123456789ABCDEF default_write)
    1005 BYTE {| signed := true; highTetra := true |}
  = 0x89ABCDEF00000000
  /\ map (readByte (write Memory64.new 1000 OCTA 0x12345678ABCDEFFF
                      {| w_highTetra := true |}))
       [1000; 1001; 1002; 1003; 1004]
     = [0x12; 0x34; 0x56; 0x78; 0].
Proof. vm_compute. split; reflexivity. Qed.

(** ** Signed reads *)

(** C7, as stated, fails: the signed read of the byte 0xAB is the
    negative BigInt -85, not 0xFFFFFFFFFFFFFFAB. *)
Lemma signed_read_is_negative :
  read (writeByte Memory64.new 1005 0xAB) 1005 BYTE signed_read = -85
  /\ read (writeByte Memory64.new 1005 0xAB) 1005 BYTE signed_read
     <> 0xFFFFFFFFFFFFFFAB.
Proof. split; [vm_compute; reflexivity | vm_compute; discriminate]. Qed.

(** C7, amended: on a store holding the byte 0xAB at [A], the signed
    BYTE read returns the negative integer -85, whose 64-bit two's
    complement pattern (its value modulo 2^64, what [formatHex] renders)
    is 0xFFFFFFFFFFFFFFAB, and the unsigned read returns 0xAB. In general,
    for every width [W] among BYTE, WYDE, TETRA and OCTA, the unsigned read
    [u] lies in [0, 2^(W*8)) and the signed read returns [u - 2^(W*8)]
    when bit [W*8 - 1] of [u] is set and [u] otherwise, that is, modulo
    2^64, [u] with bits [W*8 .. 63] filled with its sign bit. *)
Theorem signed_read_value (m : Memory64.t) (A : Z) :
  (readByte m A = 0xAB ->
     read m A BYTE signed_read = -85
     /\ (read m A BYTE signed_read) mod 2 ^ 64 = 0xFFFFFFFFFFFFFFAB
     /\ read m A BYTE default_read = 0xAB)
  /\ (forall W, In W [BYTE; WYDE; TETRA; OCTA] -> bytes_ok m ->
        0 <= read m A W default_read < 2 ^ (width_bytes W * 8)
        /\ read m A W signed_read
           = (if Z.testbit (read m A W default_read) (width_bytes W * 8 - 1)
              then read m A W default_read - 2 ^ (width_bytes W * 8)
              else read m A W default_read)
        /\ (read m A W signed_read) mod 2 ^ 64
           = (if Z.testbit (read m A W default_read) (width_bytes W * 8 - 1)
              then read m A W default_read + (2 ^ 64 - 2 ^ (width_bytes W * 8))
              else read m A W default_read)).
Proof.
  split.
  - intros Hb. unfold read.
    cbn [is_HIGH_TETRA BYTE orb highTetra signed signed_read default_read
         width_bytes].
    change (Z.to_nat 1) with 1%nat. cbn [read_loop].
    replace (alignAddress A (Num 1) + 0) with A
      by (unfold alignAddress; simpl; rewrite Z.land_m1_r; lia).
    rewrite Hb. vm_compute. repeat split.
  - intros W HW Hm.
    destruct (named_width_cases W HW) as (n & -> & Hn). clear HW.
    cbn [width_bytes].
    set (u := read m A (Num n) default_read).
    assert (Hu : 0 <= u < 2 ^ (n * 8)).
    { subst u. unfold read.
      cbn [is_HIGH_TETRA orb highTetra signed default_read width_bytes].
      pose proof (read_loop_bound (Z.to_nat n) m (alignAddress A (Num n)) 0 0 0
                    Hm ltac:(lia) ltac:(simpl; lia)) as Hb.
      rewrite Z2Nat.id in Hb by lia.
      replace (0 + 8 * n) with (n * 8) in Hb by lia. exact Hb. }
    assert (Hs : read m A (Num n) signed_read = signExtend u n) by reflexivity.
    rewrite Hs, signExtend_in_range by lia.
    split; [exact Hu|]. split; [reflexivity|].
    assert (Hp : 2 ^ (n * 8) <= 2 ^ 64) by (apply Z.pow_le_mono_r; lia).
    destruct (Z.testbit u (n * 8 - 1)).
    + replace (u - 2 ^ (n * 8))
        with (u + (2 ^ 64 - 2 ^ (n * 8)) + (-1) * 2 ^ 64) by lia.
      rewrite Z.mod_add by lia. apply Z.mod_small. lia.
    + apply Z.mod_small. lia.
Qed.

Lemma signed_read_value_witness :
  (readByte (writeByte Memory64.new 1005 0xAB) 1005 = 0xAB
   /\ (read (writeByte Memory64.new 1005 0xAB) 1005 BYTE signed_read) mod 2 ^ 64
      = 0xFFFFFFFFFFFFFFAB)
  /\ ((In WYDE [BYTE; WYDE; TETRA; OCTA]
       /\ bytes_ok (writeByte Memory64.new 1005 0xAB))
      /\ 0 <= read (writeByte Memory64.new 1005 0xAB) 1004 WYDE default_read
         < 2 ^ (width_bytes WYDE * 8)).
Proof.
  pose proof (signed_read_value (writeByte Memory64.new 1005 0xAB) 1005)
    as [Hbyte _].
  pose proof (signed_read_value (writeByte Memory64.new 1005 0xAB) 1004)
    as [_ Hgen].
  assert (Hin : In WYDE [BYTE; WYDE; TETRA; OCTA]) by (right; left; reflexivity).
  assert (Hok : bytes_ok (writeByte Memory64.new 1005 0xAB))
    by (apply bytes_ok_writeByte, bytes_ok_new).
  split.
  - split; [reflexivity|]. apply (proj1 (proj2 (Hbyte eq_refl))).
  - split; [split; assumption|]. apply (proj1 (Hgen WYDE Hin Hok)).
Defined.

(** The tests "should sign extend negative byte/wyde/tetra" of the
    repository compare the result through [formatHex]. *)
Example signed_read_tests :
  let m := write Memory64.new 1000 OCTA 0x0123456789ABCDEF default_write in
  formatHex (read m 1005 BYTE signed_read) 16 = "FFFFFFFFFFFFFFAB"
  /\ formatHex (read m 1004 WYDE signed_read) 16 = "FFFFFFFFFFFF89AB"
  /\ formatHex (read m 1004 TETRA signed_read) 16 = "FFFFFFFF89ABCDEF"
  /\ read m 1002 BYTE signed_read = 0x45.
Proof. vm_compute. repeat split. Qed.

(** ** Formatting *)

(** C8: [formatHex(-1, 16)] is ["FFFFFFFFFFFFFFFF"] and [formatSigned] of
    the bit pattern 0xFFFFFFFFFFFFFFFF is ["-1"]. In general [formatHex]
    first adds 2^64 to a negative value, renders upper-case hexadecimal
    and pads with zeros: for every value in [-2^64, 2^64) the result of
    [formatHex(V, 16)] has exactly 16 upper-case hexadecimal digits, which
    denote [V] modulo 2^64 (so [formatHex(-2^64 + 5, 16)] is
    ["0000000000000005"]); [formatSigned] renders [value - 2^64] exactly
    when bit 63 of the value is set. *)
Theorem formatting_examples :
  formatHex (-1) 16 = "FFFFFFFFFFFFFFFF"
  /\ formatSigned 0xFFFFFFFFFFFFFFFF = "-1"
  /\ (forall V digits,
        formatHex V digits
        = padStart (toUpperCase
                      (BigInt_toString 16 (if (V <? 0)%Z then 2 ^ 64 + V else V)))
            digits "0")
  /\ (forall v,
        formatSigned v
        = BigInt_toString 10 (if Z.testbit v 63 then v - 2 ^ 64 else v))
  /\ (forall V, - 2 ^ 64 <= V < 2 ^ 64 ->
        String.length (formatHex V 16) = 16%nat
        /\ hex_value (formatHex V 16) = Some (V mod 2 ^ 64))
  /\ formatHex (- 2 ^ 64 + 5) 16 = "0000000000000005"
  /\ formatHex 0x123 8 = "00000123".
Proof.
  split; [vm_compute; reflexivity|].
  split; [vm_compute; reflexivity|].
  split; [intros V digits; reflexivity|].
  split.
  { intros v. unfold formatSigned. rewrite land_bit by lia.
    rewrite negb_involutive. destruct (Z.testbit v 63); reflexivity. }
  split.
  { intros V HV. split.
    - apply FormatFacts.length_formatHex_64. exact HV.
    - rewrite FormatFacts.hex_value_formatHex by lia.
      rewrite FormatFacts.twos_complement_mod by exact HV. reflexivity. }
  split; vm_compute; reflexivity.
Qed.

Lemma formatting_examples_witness :
  - 2 ^ 64 <= -85 < 2 ^ 64
  /\ String.length (formatHex (-85) 16) = 16%nat
  /\ hex_value (formatHex (-85) 16) = Some ((-85) mod 2 ^ 64).
Proof.
  split; [lia|].
  apply (proj1 (proj2 (proj2 (proj2 (proj2 formatting_examples)))) (-85)).
  lia.
Defined.

(** * Further properties of the memory store *)

Import FormatFacts.
Local Close Scope string_scope.

(** ** Alignment *)

(** X1: aligning an aligned address changes nothing, for every address
    and every width. *)
Theorem alignAddress_idempotent (A : Z) (W : Width) :
  alignAddress (alignAddress A W) W = alignAddress A W.
Proof.
  unfold alignAddress. rewrite <- Z.land_assoc, Z.land_diag. reflexivity.
Qed.

(** X2: for the widths BYTE, WYDE, TETRA, OCTA and HIGH_TETRA (which
    aligns like TETRA), [alignAddress] rounds the address down to the
    nearest multiple of the width: the result is a multiple of the width,
    is at most the address, and is less than a width below it. *)
Theorem alignAddress_rounds_down (A : Z) (W : Width) :
  In W [BYTE; WYDE; TETRA; OCTA; HIGH_TETRA] ->
  alignAddress A W = width_bytes W * (A / width_bytes W)
  /\ (alignAddress A W) mod width_bytes W = 0
  /\ alignAddress A W <= A < alignAddress A W + width_bytes W.
Proof.
  intros HW.
  assert (Hk : exists k, 0 <= k /\ width_bytes W = 2 ^ k
                         /\ alignAddress A W = alignAddress A (Num (2 ^ k))).
  { simpl in HW. destruct HW as [<-|[<-|[<-|[<-|[<-|[]]]]]].
    - exists 0. repeat split; lia.
    - exists 1. repeat split; lia.
    - exists 2. repeat split; lia.
    - exists 3. repeat split; lia.
    - exists 2. repeat split; lia. }
  destruct Hk as (k & Hk & -> & ->).
  rewrite alignAddress_pow2 by exact Hk.
  assert (Hp : 0 < 2 ^ k) by (apply Z.pow_pos_nonneg; lia).
  split; [reflexivity|]. split.
  - rewrite Z.mul_comm. apply Z.mod_mul. lia.
  - pose proof (Z.div_mod A (2 ^ k) ltac:(lia)).
    pose proof (Z.mod_pos_bound A (2 ^ k) Hp). lia.
Qed.

Lemma alignAddress_rounds_down_witness :
  In OCTA [BYTE; WYDE; TETRA; OCTA; HIGH_TETRA]
  /\ alignAddress 1005 OCTA <= 1005 < alignAddress 1005 OCTA + width_bytes OCTA.
Proof.
  assert (Hin : In OCTA [BYTE; WYDE; TETRA; OCTA; HIGH_TETRA])
    by (right; right; right; left; reflexivity).
  split; [exact Hin|].
  apply (proj2 (proj2 (alignAddress_rounds_down 1005 OCTA Hin))).
Defined.

(** ** Reads and writes *)

(** X3: after [clear()], every read returns 0, whatever the address, the
    width and the options. *)
Theorem read_after_clear (m : Memory64.t) (A : Z) (W : Width) (o : ReadOptions) :
  read (clear m) A W o = 0.
Proof.
  unfold read. rewrite read_loop_zero by apply readByte_clear.
  destruct (is_HIGH_TETRA W || highTetra o); [reflexivity|].
  destruct (signed o); reflexivity.
Qed.

(** X4: a write does not change what a read of a disjoint window
    returns: when the aligned window of the read lies entirely below or
    entirely above the aligned window of the write, the read returns the
    same value after the write as before. *)
Theorem read_after_disjoint_write
    (m : Memory64.t) (A B V : Z) (W W' : Width)
    (o : WriteOptions) (o' : ReadOptions) :
  alignAddress B (Num (if is_HIGH_TETRA W' || highTetra o'
                       then 4 else width_bytes W'))
    + (if is_HIGH_TETRA W' || highTetra o' then 4 else width_bytes W')
    <= alignAddress A (Num (if is_HIGH_TETRA W || w_highTetra o
                            then 4 else width_bytes W))
  \/ alignAddress A (Num (if is_HIGH_TETRA W || w_highTetra o
                          then 4 else width_bytes W))
       + (if is_HIGH_TETRA W || w_highTetra o then 4 else width_bytes W)
     <= alignAddress B (Num (if is_HIGH_TETRA W' || highTetra o'
                             then 4 else width_bytes W')) ->
  read (write m A W V o) B W' o' = read m B W' o'.
Proof.
  intros Hdis. apply read_ext. intros a Ha.
  rewrite readByte_write.
  rewrite decide_False by lia. reflexivity.
Qed.

Lemma read_after_disjoint_write_witness :
  (alignAddress 1000 (Num 8) + 8 <= alignAddress 1010 (Num 4)
   \/ alignAddress 1010 (Num 4) + 4 <= alignAddress 1000 (Num 8))
  /\ read (write (write Memory64.new 1000 OCTA 0x0123456789ABCDEF default_write)
             1010 TETRA 0xFFFFFFFF default_write) 1000 OCTA signed_read
     = read (write Memory64.new 1000 OCTA 0x0123456789ABCDEF default_write)
         1000 OCTA signed_read.
Proof.
  assert (H : alignAddress 1000 (Num 8) + 8 <= alignAddress 1010 (Num 4))
    by (vm_compute; discriminate).
  split; [left; exact H|].
  apply (read_after_disjoint_write
           (write Memory64.new 1000 OCTA 0x0123456789ABCDEF default_write)
           1010 1000 0xFFFFFFFF TETRA OCTA default_write signed_read).
  left. exact H.
Defined.

(** X5: a high-tetra write followed by a high-tetra read at the same
    address returns the value with its low 32 bits cleared, whatever the
    options of either call. *)
Theorem high_tetra_roundtrip
    (m : Memory64.t) (A V : Z) (o : WriteOptions) (o' : ReadOptions) :
  read (write m A HIGH_TETRA V o) A HIGH_TETRA o' = Z.land V 0xFFFFFFFF00000000.
Proof.
  change (read (write m A HIGH_TETRA V o) A HIGH_TETRA o')
    with (Z.shiftl (read (write m A (Num 4) (Z.shiftr V 32) default_write)
                      A (Num 4) default_read) 32).
  rewrite read_write_same by lia.
  change 0xFFFFFFFF00000000 with (Z.shiftl (Z.ones 32) 32).
  change (4 * 8) with 32. Z.bitblast.
Qed.

(** X6: big-endian sub-word reads. After [write(A, OCTA, V)], an unsigned
    read of width [W] at an offset [k] inside the octabyte that is a
    multiple of [W] returns the [W] bytes of [V] that start [k] bytes from
    its most significant end. *)
Theorem subword_read_after_octa_write
    (m : Memory64.t) (A V : Z) (W : Width) (k : Z) :
  In W [BYTE; WYDE; TETRA; OCTA] ->
  0 <= k -> k + width_bytes W <= 8 -> k mod width_bytes W = 0 ->
  read (write m A OCTA V default_write) (alignAddress A OCTA + k) W default_read
  = Z.land (Z.shiftr V (8 * (8 - k - width_bytes W)))
           (2 ^ (8 * width_bytes W) - 1).
Proof.
  intros HW Hk Hkw Hmod.
  assert (Hn : exists e, 0 <= e <= 3 /\ W = Num (2 ^ e)).
  { simpl in HW. destruct HW as [<-|[<-|[<-|[<-|[]]]]];
      [exists 0|exists 1|exists 2|exists 3]; split; (lia || reflexivity). }
  destruct Hn as (e & He & ->). cbn [width_bytes] in *.
  assert (Hp : 0 < 2 ^ e <= 8).
  { split; [apply Z.pow_pos_nonneg; lia|].
    change 8 with (2 ^ 3). apply Z.pow_le_mono_r; lia. }
  set (n := 2 ^ e) in *.
  assert (Hbase : (alignAddress A OCTA) mod n = 0).
  { change OCTA with (Num (2 ^ 3)). rewrite alignAddress_pow2 by lia.
    replace (2 ^ 3) with (n * 2 ^ (3 - e))
      by (subst n; rewrite <- Z.pow_add_r by lia; f_equal; lia).
    rewrite <- Z.mul_assoc, Z.mul_comm. apply Z.mod_mul. lia. }
  assert (Hal : alignAddress (alignAddress A OCTA + k) (Num n)
                = alignAddress A OCTA + k).
  { apply (alignAddress_multiple _ n e); [lia | reflexivity |].
    rewrite Z.add_mod, Hbase, Hmod by lia. reflexivity. }
  unfold read. cbn [is_HIGH_TETRA orb highTetra default_read signed width_bytes].
  rewrite Hal.
  rewrite (read_loop_combine _ _ _ _ _ (Z.shiftr V (8 * (8 - k - n)))).
  - rewrite Z.shiftl_0_l, Z.lor_0_l, Z2Nat.id by lia.
    rewrite Z.ones_equiv. reflexivity.
  - intros j Hj. rewrite Z2Nat.id in Hj by lia. rewrite Z2Nat.id by lia.
    rewrite readByte_write.
    cbn [is_HIGH_TETRA OCTA orb w_highTetra default_write width_bytes].
    fold OCTA. change (Z.of_nat (Z.to_nat 8)) with 8.
    rewrite decide_True by lia.
    replace (8 - 1 - (alignAddress A OCTA + k + (0 + j) - alignAddress A OCTA))
      with (7 - k - j) by lia.
    rewrite Z.shiftr_shiftr by lia.
    replace (8 * (8 - k - n) + 8 * (n - 1 - j)) with (8 * (7 - k - j)) by lia.
    change 255 with (Z.ones 8). Z.bitblast.
Qed.

Lemma subword_read_after_octa_write_witness :
  (In WYDE [BYTE; WYDE; TETRA; OCTA]
   /\ 0 <= 2 /\ 2 + width_bytes WYDE <= 8 /\ 2 mod width_bytes WYDE = 0)
  /\ read (write Memory64.new 1000 OCTA 0x0123456789ABCDEF default_write)
       (alignAddress 1000 OCTA + 2) WYDE default_read
     = Z.land (Z.shiftr 0x0123456789ABCDEF (8 * (8 - 2 - width_bytes WYDE)))
              (2 ^ (8 * width_bytes WYDE) - 1).
Proof.
  assert (Hin : In WYDE [BYTE; WYDE; TETRA; OCTA]) by (right; left; reflexivity).
  assert (H0 : 0 <= 2) by lia.
  assert (H1 : 2 + width_bytes WYDE <= 8) by (simpl; lia).
  assert (H2 : 2 mod width_bytes WYDE = 0) by reflexivity.
  split; [auto|].
  apply (subword_read_after_octa_write Memory64.new 1000 0x0123456789ABCDEF
           WYDE 2 Hin H0 H1 H2).
Defined.

(** X7: on a store whose bytes were written through [writeByte], a
    signed read of width [W] (BYTE, WYDE, TETRA or OCTA) returns a value
    in the signed range of [W] bytes, congruent modulo 2^(8W) to the
    unsigned read. *)
Theorem signed_read_in_signed_range (m : Memory64.t) (A : Z) (W : Width) :
  In W [BYTE; WYDE; TETRA; OCTA] -> bytes_ok m ->
  - 2 ^ (8 * width_bytes W - 1) <= read m A W signed_read
    < 2 ^ (8 * width_bytes W - 1)
  /\ (read m A W signed_read) mod 2 ^ (8 * width_bytes W)
     = read m A W default_read.
Proof.
  intros HW Hm.
  destruct (named_width_cases W HW) as (n & -> & Hn). clear HW.
  cbn [width_bytes]. replace (8 * n) with (n * 8) by lia.
  pose proof (read_unsigned_range m A n Hm ltac:(lia)) as Hu.
  destruct (read_signed_range m A n Hm ltac:(lia)) as [Hrange [Heq|Heq]].
  - split; [exact Hrange|]. rewrite Heq. apply Z.mod_small. exact Hu.
  - split; [exact Hrange|]. rewrite Heq.
    replace (read m A (Num n) default_read - 2 ^ (n * 8))
      with (read m A (Num n) default_read + (-1) * 2 ^ (n * 8)) by lia.
    rewrite Z.mod_add by lia. apply Z.mod_small. exact Hu.
Qed.

Lemma signed_read_in_signed_range_witness :
  (In BYTE [BYTE; WYDE; TETRA; OCTA]
   /\ bytes_ok (writeByte Memory64.new 1005 0xAB))
  /\ - 2 ^ (8 * width_bytes BYTE - 1)
     <= read (writeByte Memory64.new 1005 0xAB) 1005 BYTE signed_read
     < 2 ^ (8 * width_bytes BYTE - 1).
Proof.
  assert (Hin : In BYTE [BYTE; WYDE; TETRA; OCTA]) by (left; reflexivity).
  assert (Hok : bytes_ok (writeByte Memory64.new 1005 0xAB))
    by (apply bytes_ok_writeByte, bytes_ok_new).
  split; [split; assumption|].
  apply (proj1 (signed_read_in_signed_range
                  (writeByte Memory64.new 1005 0xAB) 1005 BYTE Hin Hok)).
Defined.

(** X8: a write of width [W] depends only on the low [8W] bits of the
    value: two values congruent modulo 2^(8W) leave the same store. *)
Theorem write_low_bits_only (m : Memory64.t) (A V V' : Z) (W : Width) :
  In W [BYTE; WYDE; TETRA; OCTA] ->
  V mod 2 ^ (8 * width_bytes W) = V' mod 2 ^ (8 * width_bytes W) ->
  write m A W V default_write = write m A W V' default_write.
Proof.
  intros HW HV.
  destruct (named_width_cases W HW) as (n & -> & Hn). clear HW.
  cbn [width_bytes] in HV. unfold write.
  cbn [is_HIGH_TETRA orb w_highTetra default_write width_bytes].
  change (Z.shiftl 1 (n * 8) - 1) with (Z.ones (n * 8)).
  rewrite !Z.land_ones by lia.
  replace (n * 8) with (8 * n) by lia. rewrite HV. reflexivity.
Qed.

Lemma write_low_bits_only_witness :
  (In BYTE [BYTE; WYDE; TETRA; OCTA]
   /\ 0xFFFFFFFFFFFF1234 mod 2 ^ (8 * width_bytes BYTE)
      = 0x34 mod 2 ^ (8 * width_bytes BYTE))
  /\ write Memory64.new 1000 BYTE 0xFFFFFFFFFFFF1234 default_write
     = write Memory64.new 1000 BYTE 0x34 default_write.
Proof.
  assert (Hin : In BYTE [BYTE; WYDE; TETRA; OCTA]) by (left; reflexivity).
  assert (Hmod : 0xFFFFFFFFFFFF1234 mod 2 ^ (8 * width_bytes BYTE)
                 = 0x34 mod 2 ^ (8 * width_bytes BYTE)) by reflexivity.
  split; [split; assumption|].
  apply (write_low_bits_only Memory64.new 1000 _ _ BYTE Hin Hmod).
Defined.

(** ** Used addresses *)

(** X9: [getUsedAddresses()] is strictly ascending (sorted, without
    duplicates) and holds exactly the addresses that have an entry in the
    store; in particular every address whose byte reads non-zero is
    listed. *)
Theorem getUsedAddresses_sorted (m : Memory64.t) :
  StronglySorted Z.lt (getUsedAddresses m)
  /\ (forall a, a ∈ getUsedAddresses m <-> is_Some (store m !! a))
  /\ (forall a, readByte m a <> 0 -> a ∈ getUsedAddresses m).
Proof.
  split; [|split].
  - apply strictly_sorted.
    + apply StronglySorted_merge_sort; apply _.
    + unfold getUsedAddresses. rewrite merge_sort_Permutation.
      apply NoDup_fst_map_to_list.
  - apply elem_of_getUsedAddresses.
  - intros a Ha. apply elem_of_getUsedAddresses.
    unfold readByte in Ha. destruct (store m !! a); [eauto | contradiction].
Qed.

Lemma getUsedAddresses_sorted_witness :
  readByte (writeByte Memory64.new 50 2) 50 <> 0
  /\ 50 ∈ getUsedAddresses (writeByte Memory64.new 50 2).
Proof.
  assert (H : readByte (writeByte Memory64.new 50 2) 50 <> 0)
    by (vm_compute; discriminate).
  split; [exact H|].
  apply (proj2 (proj2 (getUsedAddresses_sorted (writeByte Memory64.new 50 2)))).
  exact H.
Defined.

(** The test "should return used addresses sorted" of the repository. *)
Example getUsedAddresses_test :
  getUsedAddresses
    (writeByte (writeByte (writeByte Memory64.new 100 1) 50 2) 200 3)
  = [50; 100; 200].
Proof. vm_compute. reflexivity. Qed.

(** X10: after [write(A, W, V, options)] the used addresses are the ones
    used before together with the whole aligned window of the write,
    whatever the value written. *)
Theorem getUsedAddresses_after_write
    (m : Memory64.t) (A V a : Z) (W : Width) (o : WriteOptions) :
  a ∈ getUsedAddresses (write m A W V o)
  <-> alignAddress A (Num (if is_HIGH_TETRA W || w_highTetra o
                           then 4 else width_bytes W)) <= a
      < alignAddress A (Num (if is_HIGH_TETRA W || w_highTetra o
                             then 4 else width_bytes W))
        + (if is_HIGH_TETRA W || w_highTetra o then 4 else width_bytes W)
      \/ a ∈ getUsedAddresses m.
Proof.
  rewrite !elem_of_getUsedAddresses. unfold write.
  rewrite store_write_loop. split; (intros [H|H]; [left; lia | right; exact H]).
Qed.

Lemma getUsedAddresses_after_write_witness :
  alignAddress 1001 (Num 2) <= 1000 < alignAddress 1001 (Num 2) + 2
  /\ 1000 ∈ getUsedAddresses (write Memory64.new 1001 WYDE 0 default_write).
Proof.
  assert (H : alignAddress 1001 (Num 2) <= 1000 < alignAddress 1001 (Num 2) + 2)
    by (vm_compute; split; [discriminate | reflexivity]).
  split; [exact H|].
  apply (proj2 (getUsedAddresses_after_write Memory64.new 1001 0 1000 WYDE
                  default_write)).
  left. exact H.
Defined.

(** X11: [writeByte] adds exactly its address to the used addresses, also
    when the byte written is 0 (the address then reads like an unused one
    but is listed), and [clear()] leaves no used address. *)
Theorem getUsedAddresses_writeByte_clear (m : Memory64.t) (a v x : Z) :
  (x ∈ getUsedAddresses (writeByte m a v) <-> x = a \/ x ∈ getUsedAddresses m)
  /\ a ∈ getUsedAddresses (writeByte m a 0)
  /\ readByte (writeByte m a 0) a = 0
  /\ getUsedAddresses (clear m) = [].
Proof.
  split; [|split; [|split]].
  - rewrite !elem_of_getUsedAddresses. unfold writeByte. simpl.
    rewrite lookup_insert_is_Some.
    destruct (decide (a = x)); intuition congruence.
  - apply elem_of_getUsedAddresses. unfold writeByte. simpl.
    rewrite lookup_insert_eq. eauto.
  - rewrite readByte_writeByte, decide_True by reflexivity. reflexivity.
  - unfold getUsedAddresses, clear. simpl. rewrite map_to_list_empty. reflexivity.
Qed.

(** * Further properties of the formatting helpers *)

(** X12: [formatHex(value, digits)] never truncates: the result has at
    least [digits] characters and, for every value from -2^64 on, however
    large, its upper-case hexadecimal digits denote the whole value (the
    value plus 2^64 when it is negative); for a value in [-2^64, 2^64) and
    at least 16 digits it has exactly [digits] characters. *)
Theorem formatHex_length (v d : Z) :
  d <= Z.of_nat (String.length (formatHex v d))
  /\ (- 2 ^ 64 <= v ->
      hex_value (formatHex v d) = Some (if v <? 0 then 2 ^ 64 + v else v))
  /\ (- 2 ^ 64 <= v < 2 ^ 64 -> 16 <= d ->
      Z.of_nat (String.length (formatHex v d)) = d).
Proof.
  split; [|split].
  - unfold formatHex. rewrite length_padStart. lia.
  - apply hex_value_formatHex.
  - intros Hv Hd. unfold formatHex.
    rewrite length_padStart, length_toUpperCase.
    assert (Hw : 0 <= (if v <? 0 then Z.shiftl 1 64 + v else v) < 2 ^ 64).
    { change (Z.shiftl 1 64) with (2 ^ 64).
      destruct (Z.ltb_spec v 0); lia. }
    pose proof (length_toString_hex _ Hw). lia.
Qed.

Lemma formatHex_length_witness :
  (- 2 ^ 64 <= 2 ^ 64 /\ hex_value (formatHex (2 ^ 64) 16) = Some (2 ^ 64))
  /\ ((- 2 ^ 64 <= -85 < 2 ^ 64 /\ 16 <= 20)
      /\ Z.of_nat (String.length (formatHex (-85) 20)) = 20).
Proof.
  split.
  - split; [lia|].
    apply (proj1 (proj2 (formatHex_length (2 ^ 64) 16))). lia.
  - split; [lia|].
    apply (proj2 (proj2 (formatHex_length (-85) 20))); lia.
Defined.

(** A value of more than 16 hexadecimal digits is rendered in full. *)
Example formatHex_wide : formatHex (2 ^ 64) 16 = "10000000000000000"%string.
Proof. vm_compute. reflexivity. Qed.

(** X13: on a store whose bytes were written through [writeByte],
    [readOctaHex(addr)] is a string of exactly 16 characters. *)
Theorem readOctaHex_length (m : Memory64.t) (A : Z) :
  bytes_ok m -> String.length (readOctaHex m A) = 16%nat.
Proof.
  intros Hm. unfold readOctaHex. apply length_formatHex_64.
  pose proof (read_unsigned_range m A 8 Hm ltac:(lia)) as Hu.
  change (8 * 8) with 64 in Hu. fold OCTA in Hu. lia.
Qed.

Lemma readOctaHex_length_witness :
  bytes_ok (write Memory64.new 1000 OCTA 0x0123456789ABCDEF default_write)
  /\ String.length
       (readOctaHex
          (write Memory64.new 1000 OCTA 0x0123456789ABCDEF default_write) 1003)
     = 16%nat.
Proof.
  assert (Hok : bytes_ok (write Memory64.new 1000 OCTA 0x0123456789ABCDEF
                            default_write))
    by (apply bytes_ok_write, bytes_ok_new).
  split; [exact Hok|].
  apply (readOctaHex_length _ 1003 Hok).
Defined.

(** * Further properties of the register file *)

Local Open Scope string_scope.

(** X14: register masking and frame. On a reachable machine, after
    [setReg(i, v)] with [i] in [0, 256), [getReg(i)] returns [v] modulo
    2^64, every other general register reads as before, and the special
    registers, the memory and the program counter are unchanged. *)
Theorem setReg_getReg (ops : list Op) (i v : Z) (m' : MMIX.t) :
  0 <= i < 256 ->
  setReg (run ops) (Int i) v = Return m' ->
  getReg m' (Int i) = Return (JBigInt (v mod 2 ^ 64))
  /\ (forall j, j <> i -> getReg m' (Int j) = getReg (run ops) (Int j))
  /\ sreg m' = sreg (run ops) /\ mem m' = mem (run ops) /\ pc m' = pc (run ops).
Proof.
  intros Hi Hset. destruct (sized_run ops) as [Hr _].
  apply setReg_inv in Hset. subst m'.
  unfold getReg. cbn [reg sreg mem pc].
  rewrite get_set_eq by lia. rewrite land_mask64, Z.mod_mod by lia.
  repeat split. intros j Hj. rewrite get_set_ne by congruence. reflexivity.
Qed.

Lemma setReg_getReg_witness :
  (0 <= 0 < 256
   /\ setReg (run []) (Int 0) (2 ^ 64 + 5) = Return (run [OpSetReg (Int 0) (2 ^ 64 + 5)]))
  /\ getReg (run [OpSetReg (Int 0) (2 ^ 64 + 5)]) (Int 0)
     = Return (JBigInt ((2 ^ 64 + 5) mod 2 ^ 64)).
Proof.
  assert (Hi : 0 <= 0 < 256) by lia.
  assert (Hset : setReg (run []) (Int 0) (2 ^ 64 + 5)
                 = Return (run [OpSetReg (Int 0) (2 ^ 64 + 5)])) by reflexivity.
  split; [split; assumption|].
  apply (proj1 (setReg_getReg [] 0 (2 ^ 64 + 5) _ Hi Hset)).
Defined.

(** X15: the same for the special registers: after
    [setSpecialReg(i, v)] with [i] in [0, 32), [getSpecialReg(i)] returns
    [v] modulo 2^64 and nothing else changes. *)
Theorem setSpecialReg_getSpecialReg (ops : list Op) (i v : Z) (m' : MMIX.t) :
  0 <= i < 32 ->
  setSpecialReg (run ops) (Int i) v = Return m' ->
  getSpecialReg m' (Int i) = Return (JBigInt (v mod 2 ^ 64))
  /\ (forall j, j <> i ->
        getSpecialReg m' (Int j) = getSpecialReg (run ops) (Int j))
  /\ reg m' = reg (run ops) /\ mem m' = mem (run ops) /\ pc m' = pc (run ops).
Proof.
  intros Hi Hset. destruct (sized_run ops) as [_ Hs].
  apply setSpecialReg_inv in Hset. subst m'.
  unfold getSpecialReg. cbn [reg sreg mem pc].
  rewrite get_set_eq by lia. rewrite land_mask64, Z.mod_mod by lia.
  repeat split. intros j Hj. rewrite get_set_ne by congruence. reflexivity.
Qed.

Lemma setSpecialReg_getSpecialReg_witness :
  (0 <= 0 < 32
   /\ setSpecialReg (run []) (Int 0) 0xABCD
      = Return (run [OpSetSpecialReg (Int 0) 0xABCD]))
  /\ getSpecialReg (run [OpSetSpecialReg (Int 0) 0xABCD]) (Int 0)
     = Return (JBigInt (0xABCD mod 2 ^ 64)).
Proof.
  assert (Hi : 0 <= 0 < 32) by lia.
  assert (Hset : setSpecialReg (run []) (Int 0) 0xABCD
                 = Return (run [OpSetSpecialReg (Int 0) 0xABCD])) by reflexivity.
  split; [split; assumption|].
  apply (proj1 (setSpecialReg_getSpecialReg [] 0 0xABCD _ Hi Hset)).
Defined.

(** X16: invariants of the reachable states. Whatever register writes,
    memory writes and program-counter assignments were made, every
    general and special register holds a value in [0, 2^64) and every
    memory byte reads as a value in [0, 256). *)
Theorem reachable_values_in_range (ops : list Op) :
  (forall i, 0 <= i < 256 ->
     exists v, getReg (run ops) (Int i) = Return (JBigInt v) /\ 0 <= v < 2 ^ 64)
  /\ (forall i, 0 <= i < 32 ->
        exists v, getSpecialReg (run ops) (Int i) = Return (JBigInt v)
                  /\ 0 <= v < 2 ^ 64)
  /\ (forall a, 0 <= readByte (mem (run ops)) a < 256).
Proof.
  destruct (reachable_invariants ops) as [[Hr Hs] Hb].
  destruct (sized_run ops) as [Lr Ls].
  split; [|split].
  - intros i Hi.
    destruct (get_bounded (reg (run ops)) i Hr ltac:(lia)) as (v & Hv & Hrange).
    exists v. unfold getReg. rewrite Hv. auto.
  - intros i Hi.
    destruct (get_bounded (sreg (run ops)) i Hs ltac:(lia)) as (v & Hv & Hrange).
    exists v. unfold getSpecialReg. rewrite Hv. auto.
  - exact Hb.
Qed.

Lemma reachable_values_in_range_witness :
  0 <= 7 < 256
  /\ exists v, getReg (run [OpSetReg (Int 7) (-1)]) (Int 7) = Return (JBigInt v)
               /\ 0 <= v < 2 ^ 64.
Proof.
  split; [lia|].
  apply (proj1 (reachable_values_in_range [OpSetReg (Int 7) (-1)])). lia.
Defined.

(** X17: [reset()] brings every machine reached by register writes at
    Number indices, memory writes and program-counter assignments back to
    exactly the state of a freshly constructed one. *)
Theorem reset_is_new (ops : list Op) : reset (run ops) = MMIX.new.
Proof.
  destruct (sized_run ops) as [Hr Hs].
  unfold reset, MMIX.new, BigUint64Array.fill, BigUint64Array.new.
  rewrite Hr, Hs. reflexivity.
Qed.

(** X18: every special register can be read by name: for every slot [s]
    in [0, 32) the table has a mnemonic for [s], and after
    [setSpecialReg(s, v)] the lookup of that mnemonic by [getRegByName]
    returns [v] modulo 2^64. *)
Theorem special_register_by_name (ops : list Op) (s v : Z) (m' : MMIX.t) :
  0 <= s < 32 ->
  setSpecialReg (run ops) (Int s) v = Return m' ->
  exists name, In (name, s) SpecialReg
               /\ getRegByName m' name = Return (JBigInt (v mod 2 ^ 64)).
Proof.
  intros Hs Hset. destruct (every_slot_named s Hs) as [name Hin].
  exists name. split; [exact Hin|].
  rewrite (getRegByName_mnemonic m' name s Hin).
  destruct (sized_run ops) as [_ Ls].
  apply setSpecialReg_inv in Hset. subst m'.
  unfold getSpecialReg. cbn [sreg].
  rewrite get_set_eq by lia. rewrite land_mask64, Z.mod_mod by lia. reflexivity.
Qed.

Lemma special_register_by_name_witness :
  (0 <= 21 < 32
   /\ setSpecialReg (run []) (Int 21) 9 = Return (run [OpSetSpecialReg (Int 21) 9]))
  /\ exists name, In (name, 21) SpecialReg
                  /\ getRegByName (run [OpSetSpecialReg (Int 21) 9]) name
                     = Return (JBigInt (9 mod 2 ^ 64)).
Proof.
  assert (Hs : 0 <= 21 < 32) by lia.
  assert (Hset : setSpecialReg (run []) (Int 21) 9
                 = Return (run [OpSetSpecialReg (Int 21) 9])) by reflexivity.
  split; [split; assumption|].
  apply (special_register_by_name [] 21 9 _ Hs Hset).
Defined.

(** X19: distinct mnemonics denote distinct special registers: a write
    to the slot of one mnemonic is read back under that mnemonic and does
    not change what [getRegByName] returns for any other mnemonic. *)
Theorem mnemonics_denote_distinct_registers
    (ops : list Op) (name1 name2 : string) (slot1 slot2 v : Z) (m' : MMIX.t) :
  In (name1, slot1) SpecialReg -> In (name2, slot2) SpecialReg ->
  name1 <> name2 ->
  setSpecialReg (run ops) (Int slot1) v = Return m' ->
  getRegByName m' name1 = Return (JBigInt (v mod 2 ^ 64))
  /\ getRegByName m' name2 = getRegByName (run ops) name2.
Proof.
  intros H1 H2 Hne Hset.
  pose proof (SpecialReg_slots_distinct _ _ _ _ H1 H2 Hne) as Hslots.
  destruct (SpecialReg_own name1 slot1 H1) as (_ & _ & Hs1).
  destruct (sized_run ops) as [_ Ls].
  rewrite (getRegByName_mnemonic m' name1 slot1 H1).
  rewrite (getRegByName_mnemonic m' name2 slot2 H2).
  rewrite (getRegByName_mnemonic (run ops) name2 slot2 H2).
  apply setSpecialReg_inv in Hset. subst m'.
  unfold getSpecialReg. cbn [sreg]. split.
  - rewrite get_set_eq by lia. rewrite land_mask64, Z.mod_mod by lia. reflexivity.
  - rewrite get_set_ne by exact Hslots. reflexivity.
Qed.

Lemma mnemonics_denote_distinct_registers_witness :
  (In ("rA", 21) SpecialReg /\ In ("rB", 0) SpecialReg /\ "rA" <> "rB"
   /\ setSpecialReg (run []) (Int 21) 9 = Return (run [OpSetSpecialReg (Int 21) 9]))
  /\ getRegByName (run [OpSetSpecialReg (Int 21) 9]) "rB"
     = getRegByName (run []) "rB".
Proof.
  assert (H1 : In ("rA", 21) SpecialReg) by (left; reflexivity).
  assert (H2 : In ("rB", 0) SpecialReg) by (right; left; reflexivity).
  assert (Hne : "rA" <> "rB") by discriminate.
  assert (Hset : setSpecialReg (run []) (Int 21) 9
                 = Return (run [OpSetSpecialReg (Int 21) 9])) by reflexivity.
  split; [auto|].
  apply (proj2 (mnemonics_denote_distinct_registers [] "rA" "rB" 21 0 9 _
                  H1 H2 Hne Hset)).
Defined.

(** X20: the hexadecimal accessors. On a reachable machine
    [getRegHex(i)] returns the 16-character [formatHex] of the register
    for [i] in [0, 256) and raises an error for every other index, where
    [getReg] returns [undefined] without raising; likewise
    [getSpecialRegHex] with the range [0, 32). *)
Theorem getRegHex_cases (ops : list Op) (i : Z) :
  (0 <= i < 256 ->
     exists v, getReg (run ops) (Int i) = Return (JBigInt v)
               /\ getRegHex (run ops) (Int i) = Return (formatHex v 16)
               /\ String.length (formatHex v 16) = 16%nat)
  /\ (~ (0 <= i < 256) -> raises (getRegHex (run ops) (Int i)))
  /\ (0 <= i < 32 ->
        exists v, getSpecialReg (run ops) (Int i) = Return (JBigInt v)
                  /\ getSpecialRegHex (run ops) (Int i) = Return (formatHex v 16)
                  /\ String.length (formatHex v 16) = 16%nat)
  /\ (~ (0 <= i < 32) -> raises (getSpecialRegHex (run ops) (Int i))).
Proof.
  destruct (reachable_invariants ops) as [[Hr Hs] _].
  destruct (sized_run ops) as [Lr Ls].
  split; [|split; [|split]].
  - intros Hi.
    destruct (get_bounded (reg (run ops)) i Hr ltac:(lia)) as (v & Hv & Hrange).
    exists v. unfold getReg, getRegHex. rewrite Hv.
    split; [reflexivity|]. split; [reflexivity|].
    apply length_formatHex_64. lia.
  - intros Hi. unfold getRegHex. rewrite get_out_of_range by lia.
    eexists. reflexivity.
  - intros Hi.
    destruct (get_bounded (sreg (run ops)) i Hs ltac:(lia)) as (v & Hv & Hrange).
    exists v. unfold getSpecialReg, getSpecialRegHex. rewrite Hv.
    split; [reflexivity|]. split; [reflexivity|].
    apply length_formatHex_64. lia.
  - intros Hi. unfold getSpecialRegHex. rewrite get_out_of_range by lia.
    eexists. reflexivity.
Qed.

Lemma getRegHex_cases_witness :
  (0 <= 5 < 256
   /\ exists v, getReg (run [OpSetReg (Int 5) 0x123]) (Int 5) = Return (JBigInt v)
                /\ getRegHex (run [OpSetReg (Int 5) 0x123]) (Int 5)
                   = Return (formatHex v 16)
                /\ String.length (formatHex v 16) = 16%nat)
  /\ (~ (0 <= 256 < 256)
      /\ raises (getRegHex (run [OpSetReg (Int 5) 0x123]) (Int 256))).
Proof.
  split.
  - split; [lia|].
    apply (proj1 (getRegHex_cases [OpSetReg (Int 5) 0x123] 5)). lia.
  - split; [lia|].
    apply (proj1 (proj2 (getRegHex_cases [OpSetReg (Int 5) 0x123] 256))). lia.
Defined.

(** X21: the state summary of a reachable machine. [getStateSummary()]
    returns without raising; its [pc] is the [formatHex] of the program
    counter; [registers] has the 256 indices 0..255 in order and
    [specialRegisters] has the mnemonics and slots of the table in source
    order; and every entry can be resolved by name: [getRegByName] of the
    entry's [name] returns a register value whose [formatHex] and
    [formatSigned] are the entry's [value] and [decimal]. *)
Theorem getStateSummary_reachable (ops : list Op) :
  (exists s, getStateSummary (run ops) = Return s)
  /\ (forall s, getStateSummary (run ops) = Return s ->
        s_pc s = formatHex (pc (run ops)) 16
        /\ map r_index (registers s) = map Z.of_nat (seq 0 256)
        /\ map r_name (specialRegisters s) = map fst SpecialReg
        /\ map r_index (specialRegisters s) = map snd SpecialReg
        /\ (forall e, In e (registers s) \/ In e (specialRegisters s) ->
              exists v, getRegByName (run ops) (r_name e) = Return (JBigInt v)
                        /\ r_value e = formatHex v 16
                        /\ r_decimal e = formatSigned v)).
Proof.
  destruct (sized_run ops) as [Lr Ls].
  destruct (special_entries_ok (run ops) SpecialReg)
    as (es & Hes & Hnames & Hidx & Hall).
  { intros name slot Hin.
    destruct (SpecialReg_own name slot Hin) as (_ & _ & Hs). lia. }
  unfold getStateSummary. rewrite Hes. cbn [bind].
  split; [eexists; reflexivity|].
  intros s Hs. injection Hs as <-. cbn [s_pc registers specialRegisters].
  split; [reflexivity|]. split; [|split; [exact Hnames|split; [exact Hidx|]]].
  - unfold register_entries.
    apply list_eq. intros i.
    change (map r_index ?l) with (r_index <$> l).
    change (map Z.of_nat ?l) with (Z.of_nat <$> l).
    rewrite !list_lookup_fmap, list_lookup_imap.
    destruct (decide (i < 256)%nat) as [Hlt|Hge].
    + destruct (lookup_lt_is_Some_2 (reg (run ops)) i ltac:(lia)) as [v Hv].
      rewrite Hv, lookup_seq_lt by lia. reflexivity.
    + rewrite lookup_ge_None_2, lookup_seq_ge by lia. reflexivity.
  - intros e [Hin|Hin].
    + destruct (register_entries_spec _ e Hin)
        as (i & v & Hv & _ & Hname & Hval & Hdec).
      exists v. rewrite Hname.
      assert (Hi : (i < 256)%nat) by (apply lookup_lt_Some in Hv; lia).
      rewrite getRegByName_dollar by lia.
      unfold getReg, BigUint64Array.get.
      destruct (Z.leb_spec 0 (Z.of_nat i)); [|lia].
      rewrite Nat2Z.id, Hv. auto.
    + destruct (Hall e Hin) as (Htab & v & Hv & Hval & Hdec).
      exists v. rewrite (getRegByName_mnemonic _ _ _ Htab).
      unfold getSpecialReg. rewrite Hv. auto.
Qed.

Lemma getStateSummary_reachable_witness :
  getStateSummary (run [OpSetReg (Int 3) 4; OpSetPc 256])
  = Return
      match getStateSummary (run [OpSetReg (Int 3) 4; OpSetPc 256]) with
      | Return s => s
      | Throw _ => {| s_pc := ""; registers := []; specialRegisters := [] |}
      end
  /\ s_pc
       match getStateSummary (run [OpSetReg (Int 3) 4; OpSetPc 256]) with
       | Return s => s
       | Throw _ => {| s_pc := ""; registers := []; specialRegisters := [] |}
       end
     = formatHex (pc (run [OpSetReg (Int 3) 4; OpSetPc 256])) 16.
Proof.
  assert (Hs : getStateSummary (run [OpSetReg (Int 3) 4; OpSetPc 256])
               = Return
                   match getStateSummary (run [OpSetReg (Int 3) 4; OpSetPc 256]) with
                   | Return s => s
                   | Throw _ =>
                       {| s_pc := ""; registers := []; specialRegisters := [] |}
                   end) by (vm_compute; reflexivity).
  split; [exact Hs|].
  apply (proj1 (proj2 (getStateSummary_reachable
                         [OpSetReg (Int 3) 4; OpSetPc 256]) _ Hs)).
Defined.

(** The summary of a machine shows the register written and the program
    counter. *)
Example getStateSummary_example :
  match getStateSummary (run [OpSetReg (Int 3) (-1); OpSetPc 256]) with
  | Return s =>
      s_pc s = "0000000000000100"
      /\ nth_error (registers s) 3
         = Some {| r_index := 3; r_name := "$3";
                   r_value := "FFFFFFFFFFFFFFFF"; r_decimal := "-1" |}
  | Throw _ => False
  end.
Proof. vm_compute. split; reflexivity. Qed.

(** X22: a signed 64-bit value survives a register. On a reachable
    machine, storing [s] in [-2^63, 2^63) with [setReg(i, s)] and reading
    it back gives the unsigned pattern of [s], whose [formatSigned] is the
    decimal of [s] and whose [formatHex] is that of [s]. *)
Theorem signed_value_register_roundtrip
    (ops : list Op) (i s : Z) (m' : MMIX.t) :
  0 <= i < 256 -> - 2 ^ 63 <= s < 2 ^ 63 ->
  setReg (run ops) (Int i) s = Return m' ->
  exists v, getReg m' (Int i) = Return (JBigInt v)
            /\ 0 <= v < 2 ^ 64
            /\ formatSigned v = BigInt_toString 10 s
            /\ formatHex v 16 = formatHex s 16.
Proof.
  intros Hi Hs Hset. destruct (sized_run ops) as [Hr _].
  apply setReg_inv in Hset. subst m'.
  exists (s mod 2 ^ 64). unfold getReg. cbn [reg].
  rewrite get_set_eq by lia. rewrite land_mask64, Z.mod_mod by lia.
  split; [reflexivity|]. split; [apply Z.mod_pos_bound; lia|].
  apply format_of_pattern. exact Hs.
Qed.

Lemma signed_value_register_roundtrip_witness :
  (0 <= 1 < 256 /\ - 2 ^ 63 <= -85 < 2 ^ 63
   /\ setReg (run []) (Int 1) (-85) = Return (run [OpSetReg (Int 1) (-85)]))
  /\ exists v, getReg (run [OpSetReg (Int 1) (-85)]) (Int 1) = Return (JBigInt v)
               /\ 0 <= v < 2 ^ 64
               /\ formatSigned v = BigInt_toString 10 (-85)
               /\ formatHex v 16 = formatHex (-85) 16.
Proof.
  assert (Hi : 0 <= 1 < 256) by lia.
  assert (Hs : - 2 ^ 63 <= -85 < 2 ^ 63) by lia.
  assert (Hset : setReg (run []) (Int 1) (-85)
                 = Return (run [OpSetReg (Int 1) (-85)])) by reflexivity.
  split; [auto|].
  apply (signed_value_register_roundtrip [] 1 (-85) _ Hi Hs Hset).
Defined.

(** X23: a signed load into a register. On a reachable machine, storing
    the result of a signed read of width BYTE, WYDE, TETRA or OCTA with
    [setReg] and formatting the register with [formatSigned] gives the
    decimal of the signed value that was read. *)
Theorem signed_load_into_register
    (ops : list Op) (i A : Z) (W : Width) (m' : MMIX.t) :
  In W [BYTE; WYDE; TETRA; OCTA] -> 0 <= i < 256 ->
  setReg (run ops) (Int i) (read (mem (run ops)) A W signed_read) = Return m' ->
  exists v, getReg m' (Int i) = Return (JBigInt v)
            /\ formatSigned v
               = BigInt_toString 10 (read (mem (run ops)) A W signed_read).
Proof.
  intros HW Hi Hset.
  destruct (named_width_cases W HW) as (n & -> & Hn). clear HW.
  destruct (reachable_invariants ops) as [_ Hb].
  destruct (read_signed_range (mem (run ops)) A n Hb ltac:(lia)) as [Hrange _].
  assert (Hp : 2 ^ (n * 8 - 1) <= 2 ^ 63) by (apply Z.pow_le_mono_r; lia).
  destruct (sized_run ops) as [Hr _].
  apply setReg_inv in Hset. subst m'.
  exists ((read (mem (run ops)) A (Num n) signed_read) mod 2 ^ 64).
  unfold getReg. cbn [reg].
  rewrite get_set_eq by lia. rewrite land_mask64, Z.mod_mod by lia.
  split; [reflexivity|].
  apply format_of_pattern. lia.
Qed.

Lemma signed_load_into_register_witness :
  (In BYTE [BYTE; WYDE; TETRA; OCTA] /\ 0 <= 1 < 256
   /\ setReg (run [OpWriteByte 1005 0xAB]) (Int 1)
        (read (mem (run [OpWriteByte 1005 0xAB])) 1005 BYTE signed_read)
      = Return (run [OpWriteByte 1005 0xAB; OpSetReg (Int 1) (-85)]))
  /\ exists v,
       getReg (run [OpWriteByte 1005 0xAB; OpSetReg (Int 1) (-85)]) (Int 1)
         = Return (JBigInt v)
       /\ formatSigned v
          = BigInt_toString 10
              (read (mem (run [OpWriteByte 1005 0xAB])) 1005 BYTE signed_read).
Proof.
  assert (HW : In BYTE [BYTE; WYDE; TETRA; OCTA]) by (left; reflexivity).
  assert (Hi : 0 <= 1 < 256) by lia.
  assert (Hset : setReg (run [OpWriteByte 1005 0xAB]) (Int 1)
                   (read (mem (run [OpWriteByte 1005 0xAB])) 1005 BYTE signed_read)
                 = Return (run [OpWriteByte 1005 0xAB; OpSetReg (Int 1) (-85)]))
    by reflexivity.
  split; [auto|].
  apply (signed_load_into_register [OpWriteByte 1005 0xAB] 1 1005 BYTE _
           HW Hi Hset).
Defined.
